(** * chaos-database-mysql: the MySQL adapter of [src/index.js]

    A shallow embedding of the adapter class [MySql] and the properties of
    its connection life cycle, query execution, column introspection and
    value conversion.

    [src/index.js] holds two versions of the class.  The first one keeps the
    transport connection in [_client] and a separate [_connected] flag; it is
    embedded in module [Client].  The second one keeps the connection in
    [_driver] and has no flag; it is embedded in module [Driver].

    JavaScript objects used as maps (a result row, the conversion table) are
    finite maps [gmap string _]; [undefined] is [None] or [VUndefined].

    The adapter's fields are passed explicitly as a record, the transport as
    a [World] (the objects created and the calls made so far) together with
    a [Transport] that gives its answers.  An operation is run up to the
    point where its promise is settled or can no longer be; the state in
    which [connect()] has returned and the transport has not answered yet is
    the result of [connect_call]. *)

From Stdlib Require Import ZArith Ascii String List Lia Bool.
From stdpp Require Import base option strings list gmap pretty.
Import ListNotations.

(** ** JavaScript values *)

(** A JavaScript number as far as this program produces one: the result of
    [Number.parseInt] on a run of decimal digits, which is [NaN], a double
    whose value is an integer, or [Infinity]. *)
Inductive number :=
| NaN
| Num (z : Z)
| Infinity.

Inductive jsval :=
| VUndefined
| VNull
| VBool (b : bool)
| VNum (n : number)
| VStr (s : string).

(** ToBoolean. *)
Definition truthy (v : jsval) : bool :=
  match v with
  | VUndefined | VNull => false
  | VBool b => b
  | VNum NaN => false
  | VNum (Num z) => negb (z =? 0)%Z
  | VNum Infinity => true
  | VStr s => negb (String.eqb s "")
  end.

(** The strict equality [===]. *)
Definition strict_eq (a b : jsval) : bool :=
  match a, b with
  | VUndefined, VUndefined => true
  | VNull, VNull => true
  | VBool x, VBool y => Bool.eqb x y
  | VNum (Num x), VNum (Num y) => (x =? y)%Z
  | VNum Infinity, VNum Infinity => true
  | VStr x, VStr y => String.eqb x y
  | _, _ => false
  end.

(** ToString, as applied to a computed property key [tmp[column.Field]]. *)
Definition to_key (v : jsval) : string :=
  match v with
  | VUndefined => "undefined"
  | VNull => "null"
  | VBool true => "true"
  | VBool false => "false"
  | VNum NaN => "NaN"
  | VNum (Num z) => pretty z
  | VNum Infinity => "Infinity"
  | VStr s => s
  end.

(** A string-or-undefined configuration entry tested as a condition. *)
Definition truthy_str (o : option string) : bool :=
  match o with
  | Some s => truthy (VStr s)
  | None => false
  end.

(** ** Promises *)

(** An error object of the transport, with the properties read here. *)
Inductive NativeError := mkNativeError {
  code : string;
  stack : string;
  message : string
}.

(** What a promise is rejected with. *)
Inductive Reason :=
| NewError (msg : string)      (* new Error(msg) *)
| Native (err : NativeError)   (* the error object the transport passed in *)
| TypeError.                   (* thrown by the engine inside a generator *)

(** Where a promise ends up once every callback of the operation has run.
    [Pending] is a promise that nothing will ever settle. *)
Inductive Outcome (A : Type) :=
| Pending
| Resolved (a : A)
| Rejected (r : Reason).
Arguments Pending {A}.
Arguments Resolved {A} a.
Arguments Rejected {A} r.

(** [accept] and [reject] of a promise executor: the first call settles the
    promise, later calls do nothing. *)
Definition settle {A} (p o : Outcome A) : Outcome A :=
  match p with
  | Pending => o
  | _ => p
  end.

(** ** The transport (the [mysql] package) *)

(** A connection object of the transport, up to identity. *)
Definition handle := nat.

(** The configuration after the defaults are merged in. *)
Record Config := mkConfig {
  host : string;
  database : option string;
  username : option string;
  user : option string;
  password : option string;
  connectionLimit : Z;
  alias : bool;
  client : option handle
}.

(** A result row: column name to value. *)
Definition Row := gmap string jsval.

(** What the transport passes as [data] to the callback of [query]. *)
Inductive Data :=
| DUndefined                        (* no data *)
| DRows (rows : list Row)           (* an array of rows; it has no insertId *)
| DPacket (insertId : option Z).    (* a result object and its insertId *)

Definition data_truthy (d : Data) : bool :=
  match d with
  | DUndefined => false
  | _ => true
  end.

(** [data.insertId]. *)
Definition data_insertId (d : Data) : option Z :=
  match d with
  | DPacket i => i
  | _ => None
  end.

(** Calls made on the transport, in the order they are made. *)
Inductive event :=
| EvCreate (cfg : Config) (h : handle)   (* mysql.createConnection(cfg) *)
| EvConnect (h : handle)                 (* h.connect(callback) *)
| EvQuery (h : handle) (sql : string)    (* h.query(sql, callback) *)
| EvEnd (h : handle).                    (* h.end() *)

Record World := mkWorld {
  next_handle : handle;     (* the identity of the next object created *)
  log : list event
}.

(** The answers of the transport: the [err] given to the callback of
    [connect], and the [(err, data)] given to the callback of [query], which
    may depend on what was done before. *)
Record Transport := mkTransport {
  on_connect : handle -> option NativeError;
  on_query : handle -> list event -> string -> option NativeError * Data
}.

Definition call (e : event) (w : World) : World :=
  {| next_handle := next_handle w; log := log w ++ [e] |}.

(** [mysql.createConnection(cfg)]: a new object. *)
Definition createConnection (cfg : Config) (w : World) : handle * World :=
  let h := next_handle w in
  (h, {| next_handle := S h; log := log w ++ [EvCreate cfg h] |}).

(** The object [h] exists in [w]. *)
Definition allocated (w : World) (h : handle) : Prop := h < next_handle w.

(** ** Construction *)

(** The [config] object given to the constructor; a key may be missing. *)
Record Options := mkOptions {
  opt_host : option string;
  opt_database : option string;
  opt_username : option string;
  opt_password : option string;
  opt_connectionLimit : option Z;
  opt_alias : option bool;
  opt_client : option handle
}.

Definition no_options : Options :=
  mkOptions None None None None None None None.

(** [merge({}, defaults, config)] followed by the aliasing of [username] to
    [user].  The base class constructor ([super(config)], not in this
    repository's sources) keeps the merged object as [this._config], so the
    two branches of the aliasing read the same entry. *)
Definition merge_defaults (o : Options) : Config :=
  let username := opt_username o in
  {| host := default "localhost" (opt_host o);
     database := opt_database o;
     username := username;
     user := if truthy_str username then username else username;
     password := opt_password o;
     connectionLimit := default 10%Z (opt_connectionLimit o);
     alias := default true (opt_alias o);
     client := opt_client o |}.

(** The result of [query]: [true], a cursor over the data, or (second
    version only) the falsy data itself. *)
Inductive QueryResult :=
| QTrue
| QCursor (d : Data)
| QData (d : Data).

(** ** The lexical parse of a vendor type *)

Definition is_digit (c : ascii) : bool :=
  let n := nat_of_ascii c in (48 <=? n) && (n <=? 57).

(** [\w]: a letter, a digit or an underscore. *)
Definition is_word (c : ascii) : bool :=
  let n := nat_of_ascii c in
  is_digit c || ((65 <=? n) && (n <=? 90)) || ((97 <=? n) && (n <=? 122))
  || (n =? 95).

(** [[\d,]]. *)
Definition is_digit_or_comma (c : ascii) : bool :=
  is_digit c || Ascii.eqb c ",".

(** The longest prefix whose characters satisfy [p], and what follows it:
    a greedy [p+] or [p*]. *)
Fixpoint span (p : ascii -> bool) (s : string) : string * string :=
  match s with
  | EmptyString => (EmptyString, EmptyString)
  | String c r =>
      if p c then let '(a, b) := span p r in (String c a, b)
      else (EmptyString, s)
  end.

(** [\(([\d,]+)\)] at the start of [s]: the text of the group, when the
    parenthesised part is there. *)
Definition paren_group (s : string) : option string :=
  match s with
  | String "(" r =>
      match span is_digit_or_comma r with
      | (EmptyString, _) => None
      | (g, String ")" _) => Some g
      | _ => None
      end
  | _ => None
  end.

(** Every character of [s] satisfies [p]. *)
Fixpoint all_chars (p : ascii -> bool) (s : string) : bool :=
  match s with
  | EmptyString => true
  | String c r => p c && all_chars p r
  end.

(** [s] does not go on with a character that satisfies [p]. *)
Definition stops (p : ascii -> bool) (s : string) : bool :=
  match s with
  | EmptyString => true
  | String c _ => negb (p c)
  end.

(** A base name [\w+]; a number [\d+]. *)
Definition base_name (s : string) : Prop :=
  s <> EmptyString /\ all_chars is_word s = true.

Definition digits (s : string) : Prop :=
  s <> EmptyString /\ all_chars is_digit s = true.

(** [s.match(/(\w+)(?:\(([\d,]+)\))?/)]: [None] when the result is [null];
    otherwise [matches[1]] and [matches[2]], the latter [undefined] when the
    optional part did not take part in the match.  The match starts at the
    first word character, [\w+] takes the whole run (the rest of the pattern
    cannot fail, so there is no backtracking into it). *)
Fixpoint type_match (s : string) : option (string * option string) :=
  match s with
  | EmptyString => None
  | String c r =>
      if is_word c then
        let '(w, rest) := span is_word s in Some (w, paren_group rest)
      else type_match r
  end.

(** [s.split(',')]. *)
Fixpoint split_comma (s : string) : list string :=
  match s with
  | EmptyString => [EmptyString]
  | String c r =>
      if Ascii.eqb c "," then EmptyString :: split_comma r
      else match split_comma r with
           | seg :: segs => String c seg :: segs
           | [] => [String c EmptyString]
           end
  end.

Definition digit_value (c : ascii) : Z := Z.of_nat (nat_of_ascii c - 48).

Fixpoint digits_value (acc : Z) (s : string) : Z :=
  match s with
  | EmptyString => acc
  | String c r => digits_value (10 * acc + digit_value c) r
  end.

(** The double nearest to the natural number [z], ties to the even
    mantissa: [z] itself below 2^53; above, [z] rounded to 53 significant
    bits, and [Infinity] when that is 2^1024 or more. *)
Definition to_double (z : Z) : number :=
  if (z <? 2 ^ 53)%Z then Num z
  else
    let e := (Z.log2 z - 52)%Z in
    let q := (z / 2 ^ e)%Z in
    let r := (z mod 2 ^ e)%Z in
    let half := (2 ^ (e - 1))%Z in
    let q' :=
      if (half <? r)%Z || ((r =? half)%Z && Z.odd q) then (q + 1)%Z
      else q in
    let v := (q' * 2 ^ e)%Z in
    if (2 ^ 1024 <=? v)%Z then Infinity else Num v.

(** [Number.parseInt(s)] for the texts it is given here, which hold digits
    only: [NaN] when there is no leading digit, otherwise the double of the
    integer that the leading digits denote.  (For more than 20 significant
    digits the language lets an engine drop the later ones before rounding;
    this follows the engines that round the exact integer.  The statements
    below that name a value are about integers below 2^53, where the result
    is the integer itself in every engine.) *)
Definition parseInt (s : string) : number :=
  match fst (span is_digit s) with
  | EmptyString => NaN
  | ds => to_double (digits_value 0 ds)
  end.

(** The object built by [_field] / [_column].  [field_length] is
    [undefined] or a number; [field_precision] is [None] when the property
    is never set. *)
Record Field := mkField {
  field_type : string;
  field_length : jsval;
  field_use : string;
  field_precision : option number
}.

(** The body shared by [_field(column)] and [_column(real)], from the type
    text on.  [mapped] is [this.dialect().mapped], the type-mapping table of
    the dialect.  [None]: [matches] is [null] and reading [matches[1]]
    throws. *)
Definition parse_type (mapped : Field -> string) (real : string)
  : option Field :=
  match type_match real with
  | None => None
  | Some (m1, m2) =>
      let '(len, prec) :=
        match m2 with
        | Some g =>
            if truthy (VStr g) then
              let length := split_comma g in
              (VNum (parseInt (nth 0 length EmptyString)),
               match nth_error length 1 with
               | Some l1 =>
                   if truthy (VStr l1) then Some (parseInt l1) else None
               | None => None
               end)
            else (VStr g, None)
        | None => (VUndefined, None)
        end in
      let field := mkField m1 len m1 prec in
      Some (mkField (mapped field) len m1 prec)
  end.

(** The object handed to [mapped] and the object returned, for a base name
    and the two optional numbers. *)
Definition parsed (mapped : Field -> string) (base : string) (len : jsval)
  (prec : option number) : Field :=
  mkField (mapped (mkField base len base prec)) len base prec.

(** [extend({}, { null: ..., 'default': ... }, field)]. *)
Record FieldDescriptor := mkFieldDescriptor {
  d_null : bool;
  d_default : jsval;
  d_type : string;
  d_length : jsval;
  d_use : string;
  d_precision : option number
}.

Definition extend_field (null : bool) (dflt : jsval) (f : Field)
  : FieldDescriptor :=
  mkFieldDescriptor null dflt (field_type f) (field_length f) (field_use f)
    (field_precision f).

(** [row.k]: [undefined] when the row has no such column. *)
Definition prop (row : Row) (k : string) : jsval :=
  default VUndefined (row !! k).

(** The [switch] on the default of a [datetime] column, the same in both
    versions. *)
Definition datetime_default (dflt : jsval) : jsval :=
  if negb (strict_eq dflt (VStr "CURRENT_TIMESTAMP")) then dflt else VNull.

(** ** The first version of the class: [_client] and [_connected] *)

Module Client.

Record MySql := mkMySql {
  _config : Config;
  _alias : bool;
  _client : option handle;
  _connected : bool;
  _lastInsertId : option Z
}.

Definition set_client (c : option handle) (st : MySql) : MySql :=
  mkMySql (_config st) (_alias st) c (_connected st) (_lastInsertId st).

Definition set_connected (b : bool) (st : MySql) : MySql :=
  mkMySql (_config st) (_alias st) (_client st) b (_lastInsertId st).

Definition set_lastInsertId (i : option Z) (st : MySql) : MySql :=
  mkMySql (_config st) (_alias st) (_client st) (_connected st) i.

(** [new MySql(config)].  The dialect instance that the constructor also
    sets up is a collaborator; the operations below take what they use of it
    ([mapped]) as an argument. *)
Definition constructor (o : Options) : MySql :=
  let config := merge_defaults o in
  {| _config := config;
     _alias := alias config;
     _client := client config;
     _connected := false;
     _lastInsertId := None |}.

Definition client (st : MySql) : option handle := _client st.

Definition config (st : MySql) : Config := _config st.

(** [connect()] up to the point where it returns its promise: either the
    promise is settled already, or it waits for the callback of
    [client.connect] on the handle returned on the right. *)
Definition connect_call (st : MySql) (w : World)
  : MySql * World * (Outcome handle + handle) :=
  match _client st with
  | Some h => (st, w, inl (Resolved h))
  | None =>
      let config := config st in
      if negb (truthy_str (database config)) then
        (st, w,
         inl (Rejected (NewError "Error, no database name has been configured.")))
      else
        let '(h, w1) := createConnection config w in
        (set_client (Some h) st, call (EvConnect h) w1, inr h)
  end.

(** The callback given to [client.connect], run with the transport's
    [err]. *)
Definition connect_callback (err : option NativeError) (h : handle)
  (st : MySql) : MySql * Outcome handle :=
  match err with
  | Some e =>
      (st, Rejected (NewError ("Unable to connect to host , error "
                               +:+ code e +:+ " " +:+ stack e)))
  | None => (set_connected true st, Resolved h)
  end.

(** [connect()] and the callback it may wait for. *)
Definition connect (T : Transport) (st : MySql) (w : World)
  : MySql * World * Outcome handle :=
  match connect_call st w with
  | (st1, w1, inl p) => (st1, w1, p)
  | (st1, w1, inr h) =>
      let '(st2, p) := connect_callback (on_connect T h) h st1 in
      (st2, w1, p)
  end.

Definition connected (st : MySql) : bool := _connected st.

(** The callback given to [self._client.query]. *)
Definition query_callback (err : option NativeError) (data : Data)
  (st : MySql) : MySql * Outcome QueryResult :=
  match err with
  | Some e => (st, Rejected (Native e))
  | None =>
      match (if data_truthy data then data_insertId data else None) with
      | Some i => (set_lastInsertId (Some i) st, Resolved QTrue)
      | None =>
          (st, Resolved (if data_truthy data then QCursor data else QTrue))
      end
  end.

(** [query(sql, data, options)].  The callback of [self.connect().then] runs
    only when [connect()] resolves; [then] is given no second callback, so
    nothing settles the promise of [query] otherwise.  Reading
    [self._client.query] without a client throws inside that callback, with
    the same effect. *)
Definition query (T : Transport) (sql : string) (st : MySql) (w : World)
  : MySql * World * Outcome QueryResult :=
  match connect T st w with
  | (st1, w1, Resolved _) =>
      match _client st1 with
      | Some h =>
          let '(err, data) := on_query T h (log w1) sql in
          let '(st2, p) := query_callback err data st1 in
          (st2, call (EvQuery h sql) w1, p)
      | None => (st1, w1, Pending)
      end
  | (st1, w1, _) => (st1, w1, Pending)
  end.

Definition lastInsertId (st : MySql) : option Z := _lastInsertId st.

(** [_field(column)]; [None] when it throws (no [Type] text, or a text
    without a word character). *)
Definition _field (mapped : Field -> string) (column : Row) : option Field :=
  match prop column "Type" with
  | VStr real => parse_type mapped real
  | _ => None
  end.

(** The body of the loop of [fields]: the single-key object [tmp] as a
    pair. *)
Definition fields_step (mapped : Field -> string) (column : Row)
  : option (string * FieldDescriptor) :=
  match _field mapped column with
  | None => None
  | Some field =>
      let dflt := prop column "Default" in
      let dflt :=
        if String.eqb (field_type field) "boolean" then
          VBool (strict_eq dflt (VStr "1"))
        else if String.eqb (field_type field) "datetime" then
          datetime_default dflt
        else dflt in
      Some (to_key (prop column "Field"),
            extend_field
              (if strict_eq (prop column "Null") (VStr "YES") then true
               else false) dflt field)
  end.

Fixpoint fields_loop (mapped : Field -> string) (columns : list Row)
  : option (list (string * FieldDescriptor)) :=
  match columns with
  | [] => Some []
  | column :: rest =>
      match fields_step mapped column with
      | None => None
      | Some tmp =>
          match fields_loop mapped rest with
          | None => None
          | Some fields => Some (tmp :: fields)
          end
      end
  end.

(** [fields(name)].  [iterate] is the iteration of the cursor class, a
    collaborator.  The generator run by [co] rejects with what [query]
    rejects with or with what the loop throws ([true] is not iterable), and
    stays pending when [query] does. *)
Definition fields (mapped : Field -> string) (iterate : Data -> list Row)
  (T : Transport) (name : string) (st : MySql) (w : World)
  : MySql * World * Outcome (list (string * FieldDescriptor)) :=
  let '(st1, w1, q) := query T ("DESCRIBE " +:+ name) st w in
  (st1, w1,
   match q with
   | Resolved (QCursor d) =>
       match fields_loop mapped (iterate d) with
       | Some fs => Resolved fs
       | None => Rejected TypeError
       end
   | Resolved _ => Rejected TypeError
   | Rejected r => Rejected r
   | Pending => Pending
   end).

(** [disconnect()]. *)
Definition disconnect (st : MySql) (w : World) : MySql * World * bool :=
  match _client st with
  | None => (st, w, true)
  | Some h =>
      (set_connected false (set_client None st), call (EvEnd h) w, true)
  end.

(** *** Sequences of calls on one adapter *)

Inductive op :=
| Connect
| Disconnect
| Query (sql : string).

Definition step (T : Transport) (o : op) (st : MySql) (w : World)
  : MySql * World :=
  match o with
  | Connect => let '(st1, w1, _) := connect T st w in (st1, w1)
  | Disconnect => let '(st1, w1, _) := disconnect st w in (st1, w1)
  | Query sql => let '(st1, w1, _) := query T sql st w in (st1, w1)
  end.

Fixpoint run (T : Transport) (ops : list op) (st : MySql) (w : World)
  : MySql * World :=
  match ops with
  | [] => (st, w)
  | o :: ops => let '(st1, w1) := step T o st w in run T ops st1 w1
  end.

(** [connect()] called [n] times in a row, with the promises it returned. *)
Fixpoint connect_times (T : Transport) (n : nat) (st : MySql) (w : World)
  : MySql * World * list (Outcome handle) :=
  match n with
  | O => (st, w, [])
  | S n =>
      let '(st1, w1, p) := connect T st w in
      let '(st2, w2, ps) := connect_times T n st1 w1 in
      (st2, w2, p :: ps)
  end.

(** The auto-increment identifier in the transport's answer to
    [query(sql)] issued in state [st]: [None] when the connection step does
    not resolve, when the answer is an error, or when its data carries no
    identifier. *)
Definition answered_id (T : Transport) (sql : string) (st : MySql)
  (w : World) : option Z :=
  match connect T st w with
  | (_, w1, Resolved h) =>
      match on_query T h (log w1) sql with
      | (None, data) => data_insertId data
      | (Some _, _) => None
      end
  | _ => None
  end.

(** The identifiers answered along a run, oldest first. *)
Fixpoint answered_ids (T : Transport) (ops : list op) (st : MySql)
  (w : World) : list Z :=
  match ops with
  | [] => []
  | o :: ops =>
      let here :=
        match o with
        | Query sql => option_list (answered_id T sql st w)
        | _ => []
        end in
      let '(st1, w1) := step T o st w in
      here ++ answered_ids T ops st1 w1
  end.

End Client.

(** ** The second version of the class: [_driver], no flag *)

Module Driver.

(** The injected handle is the [driver] key of the configuration here; it
    is read from the [client] entry of [Config]. *)
Record MySql := mkMySql {
  _config : Config;
  _alias : bool;
  _driver : option handle;
  _lastInsertId : option Z
}.

Definition set_driver (d : option handle) (st : MySql) : MySql :=
  mkMySql (_config st) (_alias st) d (_lastInsertId st).

Definition set_lastInsertId (i : option Z) (st : MySql) : MySql :=
  mkMySql (_config st) (_alias st) (_driver st) i.

Definition constructor (o : Options) : MySql :=
  let config := merge_defaults o in
  {| _config := config;
     _alias := alias config;
     _driver := client config;
     _lastInsertId := None |}.

Definition config (st : MySql) : Config := _config st.

Definition connect_call (st : MySql) (w : World)
  : MySql * World * (Outcome handle + handle) :=
  match _driver st with
  | Some h => (st, w, inl (Resolved h))
  | None =>
      let config := config st in
      if negb (truthy_str (database config)) then
        (st, w,
         inl (Rejected (NewError "Error, no database name has been configured.")))
      else
        let '(h, w1) := createConnection config w in
        (set_driver (Some h) st, call (EvConnect h) w1, inr h)
  end.

(** The callback given to [driver.connect]: [reject] does not return, and
    [accept] is called after it. *)
Definition connect_callback (err : option NativeError) (h : handle)
  (st : MySql) : MySql * Outcome handle :=
  let p := Pending in
  let p :=
    match err with
    | Some e =>
        settle p (Rejected (NewError ("Unable to connect to host , error "
                                      +:+ code e +:+ " " +:+ stack e)))
    | None => p
    end in
  (st, settle p (Resolved h)).

Definition connect (T : Transport) (st : MySql) (w : World)
  : MySql * World * Outcome handle :=
  match connect_call st w with
  | (st1, w1, inl p) => (st1, w1, p)
  | (st1, w1, inr h) =>
      let '(st2, p) := connect_callback (on_connect T h) h st1 in
      (st2, w1, p)
  end.

(** [driver()]. *)
Definition driver (T : Transport) (st : MySql) (w : World)
  : MySql * World * Outcome handle :=
  connect T st w.

(** [connected()]: [!!this._driver]. *)
Definition connected (st : MySql) : bool :=
  match _driver st with
  | Some _ => true
  | None => false
  end.

(** The callback given to [this._driver.query]: [reject] does not return;
    any truthy data has its [insertId] recorded and is wrapped in a cursor;
    [accept] is called with the cursor or with the falsy data. *)
Definition query_callback (err : option NativeError) (data : Data)
  (st : MySql) : MySql * Outcome QueryResult :=
  let p := Pending in
  let p :=
    match err with
    | Some e => settle p (Rejected (Native e))
    | None => p
    end in
  if data_truthy data then
    (set_lastInsertId (data_insertId data) st,
     settle p (Resolved (QCursor data)))
  else (st, settle p (Resolved (QData data))).

(** [query(sql, data, options)], with [then] given no second callback as in
    the first version. *)
Definition query (T : Transport) (sql : string) (st : MySql) (w : World)
  : MySql * World * Outcome QueryResult :=
  match driver T st w with
  | (st1, w1, Resolved _) =>
      match _driver st1 with
      | Some h =>
          let '(err, data) := on_query T h (log w1) sql in
          let '(st2, p) := query_callback err data st1 in
          (st2, call (EvQuery h sql) w1, p)
      | None => (st1, w1, Pending)
      end
  | (st1, w1, _) => (st1, w1, Pending)
  end.

Definition lastInsertId (st : MySql) : option Z := _lastInsertId st.

(** [_column(real)]. *)
Definition _column (mapped : Field -> string) (real : string) : option Field :=
  parse_type mapped real.

(** The body of the loop of [fields]; [column.Type] has to be a text for
    [real.match] to exist. *)
Definition fields_step (mapped : Field -> string) (column : Row)
  : option (string * FieldDescriptor) :=
  match prop column "Type" with
  | VStr real =>
      match _column mapped real with
      | None => None
      | Some field =>
          let dft := prop column "Default" in
          let dft :=
            if String.eqb (field_type field) "boolean" then
              let dft := if strict_eq dft (VStr "1") then VBool true else dft in
              if strict_eq dft (VStr "0") then VBool false else dft
            else if String.eqb (field_type field) "datetime" then
              datetime_default dft
            else dft in
          Some (to_key (prop column "Field"),
                extend_field
                  (if strict_eq (prop column "Null") (VStr "YES") then true
                   else false) dft field)
      end
  | _ => None
  end.

Fixpoint fields_loop (mapped : Field -> string) (columns : list Row)
  : option (list (string * FieldDescriptor)) :=
  match columns with
  | [] => Some []
  | column :: rest =>
      match fields_step mapped column with
      | None => None
      | Some tmp =>
          match fields_loop mapped rest with
          | None => None
          | Some fields => Some (tmp :: fields)
          end
      end
  end.

Definition fields (mapped : Field -> string) (iterate : Data -> list Row)
  (T : Transport) (name : string) (st : MySql) (w : World)
  : MySql * World * Outcome (list (string * FieldDescriptor)) :=
  let '(st1, w1, q) := query T ("DESCRIBE " +:+ name) st w in
  (st1, w1,
   match q with
   | Resolved (QCursor d) =>
       match fields_loop mapped (iterate d) with
       | Some fs => Resolved fs
       | None => Rejected TypeError
       end
   | Resolved _ => Rejected TypeError
   | Rejected r => Rejected r
   | Pending => Pending
   end).

(** [disconnect()]. *)
Definition disconnect (st : MySql) (w : World) : MySql * World * bool :=
  match _driver st with
  | None => (st, w, true)
  | Some h => (set_driver None st, call (EvEnd h) w, true)
  end.

(** The object given to [new schema(...)].  Its [connection] entry is the
    adapter itself, by reference; [schema_fields] is the list that [fields]
    resolved with, or the [fields] argument as the caller gave it. *)
Record SchemaConfig (F M : Type) := mkSchemaConfig {
  schema_source : string;
  schema_fields : list (string * FieldDescriptor) + F;
  schema_meta : M
}.
Arguments mkSchemaConfig {F M}.
Arguments schema_source {F M}.
Arguments schema_fields {F M}.
Arguments schema_meta {F M}.

(** [describe(name, fields, meta)], called with [nbargs] arguments (the
    missing ones are [undefined]).  [schema] is the schema class of the
    collaborator.  The generator run by [co] introspects only when exactly
    one argument was given. *)
Definition describe {F M S : Type} (schema : SchemaConfig F M -> S)
  (mapped : Field -> string) (iterate : Data -> list Row) (T : Transport)
  (nbargs : nat) (name : string) (fields0 : F) (meta : M)
  (st : MySql) (w : World) : MySql * World * Outcome S :=
  if nbargs =? 1 then
    let '(st1, w1, p) := fields mapped iterate T name st w in
    (st1, w1,
     match p with
     | Resolved fs => Resolved (schema (mkSchemaConfig name (inl fs) meta))
     | Rejected r => Rejected r
     | Pending => Pending
     end)
  else (st, w, Resolved (schema (mkSchemaConfig name (inr fields0) meta))).

End Driver.

(** The flag read by [connected()] is set only by a connection that the
    transport accepted on an object created from [n0] on. *)
Definition flag_justified (T : Transport) (n0 : handle) (st : Client.MySql)
  (w : World) : Prop :=
  n0 <= next_handle w
  /\ (Client.connected st = true ->
      exists h, n0 <= h /\ In (EvConnect h) (log w) /\ on_connect T h = None).

(** ** Value conversion *)

Inductive direction :=
| toStorage
| fromStorage.

(** One direction of the conversion table: the converters by logical type
    name, and the fallback entry. *)
Record Converters := mkConverters {
  by_type : gmap string (jsval -> jsval);
  fallback : jsval -> jsval
}.

Record ConversionTable := mkConversionTable {
  toStorageTable : Converters;
  fromStorageTable : Converters
}.

Definition converters (tbl : ConversionTable) (d : direction) : Converters :=
  match d with
  | toStorage => toStorageTable tbl
  | fromStorage => fromStorageTable tbl
  end.

(** Modelled from the spec: [convert] and its conversion table belong to the
    base adapter class, which is not among this repository's sources (only
    the call in the constructor's caster and the tests are).  Section 4.3:
    a null value converted toStorage always yields the storage NULL literal,
    independent of the logical type; otherwise the converter of the logical
    type is looked up in the table of the direction, and the fallback entry
    is used when the type is absent. *)
Definition convert (tbl : ConversionTable) (d : direction)
  (logicalType : string) (value : jsval) : jsval :=
  match d, value with
  | toStorage, VNull => VStr "NULL"
  | _, _ =>
      match by_type (converters tbl d) !! logicalType with
      | Some f => f value
      | None => fallback (converters tbl d) value
      end
  end.

(** Modelled from the spec: the documented entries for the boolean type
    ([TRUE] / [FALSE] toStorage; [1] to true and [0] to false fromStorage) and
    the generic fallbacks (stringify toStorage, identity fromStorage). *)
Definition documented_table : ConversionTable :=
  {| toStorageTable :=
       {| by_type :=
            {[ "boolean" :=
                 fun v => VStr (if truthy v then "TRUE" else "FALSE") ]};
          fallback := fun v => VStr (to_key v) |};
     fromStorageTable :=
       {| by_type :=
            {[ "boolean" :=
                 fun v => if strict_eq v (VNum (Num 1)) then VBool true
                          else if strict_eq v (VNum (Num 0)) then VBool false
                          else v ]};
          fallback := fun v => v |} |}.

(** ** The normalization of defaults, in the words of the specification *)

(** Boolean logical type: ['1'] is true, ['0'] is false, anything else is
    passed through. *)
Definition spec_boolean_default (raw : jsval) : jsval :=
  match raw with
  | VStr s =>
      if String.eqb s "1" then VBool true
      else if String.eqb s "0" then VBool false
      else raw
  | _ => raw
  end.

(** Datetime logical type: the auto-now sentinel text is null, anything else
    is passed through. *)
Definition spec_datetime_default (raw : jsval) : jsval :=
  match raw with
  | VStr s => if String.eqb s "CURRENT_TIMESTAMP" then VNull else raw
  | _ => raw
  end.

(** The claim on boolean columns, for either version of the loop body. *)
Definition boolean_default_passes_through
  (fields_step : (Field -> string) -> Row -> option (string * FieldDescriptor))
  : Prop :=
  forall mapped column key fd,
    fields_step mapped column = Some (key, fd) ->
    d_type fd = "boolean" ->
    d_default fd = spec_boolean_default (prop column "Default").

(** The error of a configuration without a database name. *)
Definition no_database_error : Reason :=
  NewError "Error, no database name has been configured.".

(** ** Reading the log of transport calls *)

(** The connection object that a call is made on (or creates). *)
Definition event_handle (e : event) : handle :=
  match e with
  | EvCreate _ h | EvConnect h | EvQuery h _ | EvEnd h => h
  end.

(** Some call is made on an object after [end()] was called on it. *)
Definition use_after_end (l : list event) : Prop :=
  exists l1 l2 e, l = l1 ++ EvEnd (event_handle e) :: l2 /\ In e l2.

(** Every connection created since the log was [l0] was created with the
    adapter's configuration, and it has been ended or is the cached one. *)
Definition accounted (l0 : list event) (st : Client.MySql) (w : World)
  : Prop :=
  forall cfg h,
    In (EvCreate cfg h) (log w) ->
    In (EvCreate cfg h) l0
    \/ (cfg = Client._config st
        /\ (In (EvEnd h) (log w) \/ Client._client st = Some h)).

(** The objects of the log exist and so does the cached one, which has not
    been ended; nothing is used after its end. *)
Definition tidy (st : Client.MySql) (w : World) : Prop :=
  (forall e, In e (log w) -> allocated w (event_handle e))
  /\ (forall h, Client._client st = Some h ->
               allocated w h /\ ~ In (EvEnd h) (log w))
  /\ ~ use_after_end (log w).

(** The three ways in which a call changes adapter and log. *)
Inductive change (st : Client.MySql) (w : World)
  : Client.MySql -> World -> Prop :=
| change_none : change st w st w
| change_open st1 :
    Client._client st = None ->
    Client._client st1 = Some (next_handle w) ->
    Client._config st1 = Client._config st ->
    change st w st1
      (call (EvConnect (next_handle w))
         (snd (createConnection (Client._config st) w)))
| change_query st1 h sql :
    Client._client st = Some h ->
    Client._client st1 = Some h ->
    Client._connected st1 = Client._connected st ->
    Client._config st1 = Client._config st ->
    change st w st1 (call (EvQuery h sql) w)
| change_end st1 h :
    Client._client st = Some h ->
    Client._client st1 = None ->
    Client._connected st1 = false ->
    Client._config st1 = Client._config st ->
    change st w st1 (call (EvEnd h) w).

(** No character of [s] is a word character. *)
Definition no_word (s : string) : bool :=
  all_chars (fun c => negb (is_word c)) s.

(** The row has a [Type] text with a word character in it. *)
Definition typed (column : Row) : bool :=
  match prop column "Type" with
  | VStr real => negb (no_word real)
  | _ => false
  end.

(** The digits of [s] denote an integer below 2^53, which a double holds
    as it is. *)
Definition small (s : string) : Prop := (digits_value 0 s < 2 ^ 53)%Z.

(** A double whose value is a natural number. *)
Definition natural (n : number) : Prop :=
  exists z, n = Num z /\ (0 <= z)%Z.

(** ** Sample inputs *)

Definition sample_options : Options :=
  {| opt_host := None;
     opt_database := Some "chaos_test";
     opt_username := Some "root";
     opt_password := None;
     opt_connectionLimit := None;
     opt_alias := None;
     opt_client := None |}.

Definition unreachable_options : Options :=
  {| opt_host := Some "hostlocal";
     opt_database := Some "chaos_test";
     opt_username := Some "root";
     opt_password := Some "root";
     opt_connectionLimit := None;
     opt_alias := None;
     opt_client := None |}.

Definition injected_options : Options :=
  {| opt_host := None;
     opt_database := None;
     opt_username := None;
     opt_password := None;
     opt_connectionLimit := None;
     opt_alias := None;
     opt_client := Some 0 |}.

Definition empty_world : World := {| next_handle := 0; log := [] |}.

(** The world in which the injected handle [0] already exists. *)
Definition injected_world : World := {| next_handle := 1; log := [] |}.

Definition enotfound : NativeError :=
  {| code := "ENOTFOUND";
     stack := "Error: getaddrinfo ENOTFOUND hostlocal";
     message := "getaddrinfo ENOTFOUND hostlocal" |}.

Definition syntax_error : NativeError :=
  {| code := "ER_PARSE_ERROR";
     stack := "Error: ER_PARSE_ERROR: You have an error in your SQL syntax";
     message := "ER_PARSE_ERROR: You have an error in your SQL syntax" |}.

(** A server that accepts every connection, answers an [INSERT] with the
    identifier [1], [SELECT * FROM] with a syntax error and anything else
    with no row. *)
Definition good_server : Transport :=
  {| on_connect := fun _ => None;
     on_query := fun _ _ sql =>
       if String.prefix "INSERT" sql then (None, DPacket (Some 1%Z))
       else if String.eqb sql "SELECT * FROM" then (Some syntax_error, DUndefined)
       else (None, DRows []) |}.

(** A host that cannot be resolved. *)
Definition no_server : Transport :=
  {| on_connect := fun _ => Some enotfound;
     on_query := fun _ _ _ => (Some enotfound, DUndefined) |}.

(** The type mapping of the MySQL dialect for the types of the test suite. *)
Definition sample_mapped (f : Field) : string :=
  if String.eqb (field_use f) "tinyint" then "boolean"
  else if String.eqb (field_use f) "timestamp" then "datetime"
  else if String.eqb (field_use f) "int" then "integer"
  else if String.eqb (field_use f) "decimal" then "decimal"
  else "string".

(** The cursor over an array of rows yields them in order. *)
Definition sample_iterate (d : Data) : list Row :=
  match d with
  | DRows rows => rows
  | _ => []
  end.

Definition mk_column (name type null : string) (dflt : jsval) : Row :=
  {[ "Field" := VStr name; "Type" := VStr type; "Null" := VStr null;
     "Default" := dflt ]}.

(** The answer to [DESCRIBE gallery] for the table of the test suite. *)
Definition gallery_columns : list Row :=
  [ mk_column "id" "int(11)" "NO" VNull;
    mk_column "name" "varchar(128)" "YES" (VStr "Johnny Boy");
    mk_column "active" "tinyint(1)" "YES" (VStr "1");
    mk_column "inactive" "tinyint(1)" "YES" (VStr "0");
    mk_column "money" "decimal(10,2)" "YES" VNull;
    mk_column "created" "timestamp" "YES" (VStr "CURRENT_TIMESTAMP") ].

Definition gallery_server : Transport :=
  {| on_connect := fun _ => None;
     on_query := fun _ _ sql =>
       if String.eqb sql "DESCRIBE gallery" then (None, DRows gallery_columns)
       else (None, DRows []) |}.

(** * Properties *)

(** ** The connection life cycle (first version) *)

Section ClientConnection.

Variable T : Transport.

Lemma connect_cached (st : Client.MySql) (w : World) (h : handle) :
  Client._client st = Some h ->
  Client.connect T st w = (st, w, Resolved h).
Proof.
  intros Hc. unfold Client.connect, Client.connect_call. now rewrite Hc.
Qed.

(** What an uncached [connect()] does when a database name is configured:
    one [createConnection], one [connect] on the new object, which is cached
    at once. *)
Lemma connect_opens (st : Client.MySql) (w : World) :
  Client._client st = None ->
  truthy_str (database (Client._config st)) = true ->
  Client.connect_call st w =
    (Client.set_client (Some (next_handle w)) st,
     call (EvConnect (next_handle w))
       (snd (createConnection (Client._config st) w)),
     inr (next_handle w)).
Proof.
  intros Hc Hdb. unfold Client.connect_call, Client.config.
  now rewrite Hc, Hdb.
Qed.

Lemma connect_resolved_client (st st1 : Client.MySql) (w w1 : World)
  (h : handle) :
  Client.connect T st w = (st1, w1, Resolved h) ->
  Client._client st1 = Some h.
Proof.
  unfold Client.connect, Client.connect_call, Client.connect_callback.
  destruct (Client._client st) as [h0|] eqn:Hc.
  - intros [= <- _ <-]. exact Hc.
  - destruct (negb _); [discriminate|]. simpl.
    destruct (on_connect T (next_handle w)); [discriminate|].
    now intros [= <- _ <-].
Qed.

Lemma connect_lastInsertId (st : Client.MySql) (w : World) :
  Client._lastInsertId (fst (fst (Client.connect T st w)))
  = Client._lastInsertId st.
Proof.
  unfold Client.connect, Client.connect_call, Client.connect_callback.
  destruct (Client._client st); [reflexivity|].
  destruct (negb _); [reflexivity|]. simpl.
  now destruct (on_connect T (next_handle w)).
Qed.

Lemma connect_times_cached (n : nat) (st : Client.MySql) (w : World)
  (h : handle) :
  Client._client st = Some h ->
  Client.connect_times T n st w = (st, w, repeat (Resolved h) n).
Proof.
  intros Hc. induction n as [|n IH]; [reflexivity|].
  simpl. now rewrite (connect_cached _ w _ Hc), IH.
Qed.

(** The cached handle of an adapter is an object that exists: this is kept
    by every call, so it holds along any run that starts from a new adapter
    whose injected handle, if any, exists. *)
Lemma step_client_allocated (o : Client.op) (st : Client.MySql) (w : World) :
  (forall h, Client._client st = Some h -> allocated w h) ->
  forall h,
    Client._client (fst (Client.step T o st w)) = Some h ->
    allocated (snd (Client.step T o st w)) h.
Proof.
  intros Hinv.
  assert (Hconn : forall h,
            Client._client (fst (fst (Client.connect T st w))) = Some h ->
            allocated (snd (fst (Client.connect T st w))) h).
  { unfold Client.connect, Client.connect_call, Client.connect_callback.
    destruct (Client._client st) as [h0|] eqn:Hc;
      [simpl; rewrite Hc; exact Hinv|].
    destruct (negb _); [simpl; now rewrite Hc|]. simpl.
    destruct (on_connect T (next_handle w)); simpl;
      intros h [= <-]; unfold allocated; simpl; lia. }
  destruct o as [| |sql]; simpl.
  - destruct (Client.connect T st w) as [[st1 w1] p]. exact Hconn.
  - unfold Client.disconnect.
    destruct (Client._client st) eqn:Hc; [discriminate|]. simpl.
    now rewrite Hc.
  - unfold Client.query.
    destruct (Client.connect T st w) as [[st1 w1] [|h1|r]]; simpl in *;
      try exact Hconn.
    destruct (Client._client st1) as [h2|] eqn:Hc1;
      rewrite <- Hc1 in Hconn; [|exact Hconn].
    destruct (on_query T h2 (log w1) sql) as [err data].
    unfold Client.query_callback.
    destruct err; simpl; [exact Hconn|].
    destruct (if data_truthy data then data_insertId data else None);
      simpl; exact Hconn.
Qed.

Lemma run_client_allocated (ops : list Client.op) (st : Client.MySql)
  (w : World) :
  (forall h, Client._client st = Some h -> allocated w h) ->
  forall h,
    Client._client (fst (Client.run T ops st w)) = Some h ->
    allocated (snd (Client.run T ops st w)) h.
Proof.
  revert st w. induction ops as [|o ops IH]; intros st w Hinv; [exact Hinv|].
  simpl. pose proof (step_client_allocated o st w Hinv) as Hs.
  destruct (Client.step T o st w) as [st1 w1]. now apply IH.
Qed.

(** C1.  Once a handle is cached, every later [connect()] resolves with that
    handle and leaves the adapter and the transport untouched; this holds
    as soon as the first [connect()] has returned, before the transport has
    answered.  After [disconnect()] has cleared the handle, the next
    [connect()] of an adapter with a database name opens a connection: it
    creates a new object, different from the old one, caches it and makes
    exactly the two transport calls on it; it resolves with the new object
    when the transport accepts the connection. *)
Theorem C1_connect_idempotent (st : Client.MySql) (w : World) (h : handle) :
  Client._client st = Some h ->
  allocated w h ->
  (forall n,
     Client.connect_times T n st w = (st, w, repeat (Resolved h) n))
  /\ (forall st0 w0 st1 w1 h1,
        Client.connect_call st0 w0 = (st1, w1, inr h1) ->
        Client.connect T st1 w1 = (st1, w1, Resolved h1))
  /\ (let '(st1, w1, _) := Client.disconnect st w in
      Client._client st1 = None
      /\ (truthy_str (database (Client._config st)) = true ->
          exists h' st2 w2 p,
            Client.connect T st1 w1 = (st2, w2, p)
            /\ h' <> h /\ ~ allocated w h'
            /\ Client._client st2 = Some h'
            /\ log w2 = log w1 ++ [EvCreate (Client._config st) h';
                                   EvConnect h']
            /\ (on_connect T h' = None -> p = Resolved h'))).
Proof.
  intros Hc Hal. split; [|split].
  - intros n. now apply connect_times_cached.
  - intros st0 w0 st1 w1 h1 Hcall. apply connect_cached.
    unfold Client.connect_call in Hcall.
    destruct (Client._client st0); [discriminate|].
    destruct (negb _); [discriminate|].
    simpl in Hcall. now injection Hcall as <- _ <-.
  - unfold Client.disconnect. rewrite Hc. split; [reflexivity|].
    intros Hdb.
    exists (next_handle w).
    unfold Client.connect.
    rewrite connect_opens by (simpl; first [reflexivity | assumption]).
    simpl.
    destruct (Client.connect_callback (on_connect T (next_handle w))
                (next_handle w) _) as [st2 p] eqn:Hcb.
    exists st2. eexists. exists p.
    split; [reflexivity|]. unfold allocated in *.
    split; [lia|]. split; [lia|].
    unfold Client.connect_callback in Hcb.
    destruct (on_connect T (next_handle w)); injection Hcb as <- <-.
    + split; [reflexivity|]. simpl. rewrite <- app_assoc.
      split; [reflexivity|discriminate].
    + split; [reflexivity|]. simpl. rewrite <- app_assoc.
      split; reflexivity.
Qed.

End ClientConnection.

Lemma C1_connect_idempotent_witness :
  let st := fst (fst (Client.connect good_server
                        (Client.constructor sample_options) empty_world)) in
  let w := snd (fst (Client.connect good_server
                       (Client.constructor sample_options) empty_world)) in
  Client.connect_times good_server 3 st w
    = (st, w, [Resolved 0; Resolved 0; Resolved 0])
  /\ exists st2 w2,
       Client.connect good_server (fst (fst (Client.disconnect st w)))
         (snd (fst (Client.disconnect st w))) = (st2, w2, Resolved 1).
Proof.
  intros st w.
  assert (Hc : Client._client st = Some 0) by reflexivity.
  assert (Hal : allocated w 0) by (vm_compute; lia).
  destruct (C1_connect_idempotent good_server st w 0 Hc Hal)
    as [Hn [_ Hd]].
  split; [exact (Hn 3)|].
  change (Client.disconnect st w) with
    (Client.set_connected false (Client.set_client None st),
     call (EvEnd 0) w, true) in *.
  destruct Hd as [_ Hd].
  destruct (Hd eq_refl) as (h' & st2 & w2 & p & Hconn & _ & _ & _ & _ & Hp).
  exists st2, w2. simpl.
  rewrite Hconn. f_equal.
  unfold Client.connect, Client.connect_call in Hconn. simpl in Hconn.
  injection Hconn as _ _ <-. reflexivity.
Defined.

(** ** Query execution (first version) *)

Section ClientQuery.

Variable T : Transport.

(** [query] after a connection step that resolved. *)
Lemma query_connected (sql : string) (st st1 : Client.MySql) (w w1 : World)
  (h : handle) :
  Client.connect T st w = (st1, w1, Resolved h) ->
  Client.query T sql st w =
    (let '(err, data) := on_query T h (log w1) sql in
     let '(st2, p) := Client.query_callback err data st1 in
     (st2, call (EvQuery h sql) w1, p)).
Proof.
  intros Hconn. unfold Client.query.
  rewrite Hconn, (connect_resolved_client T _ _ _ _ _ Hconn).
  reflexivity.
Qed.

(** [query] after a connection step that did not resolve. *)
Lemma query_unconnected (sql : string) (st st1 : Client.MySql)
  (w w1 : World) (p : Outcome handle) :
  Client.connect T st w = (st1, w1, p) ->
  (forall h, p <> Resolved h) ->
  Client.query T sql st w = (st1, w1, Pending).
Proof.
  intros Hconn Hp. unfold Client.query. rewrite Hconn.
  destruct p as [|h|r]; [reflexivity| |reflexivity].
  now destruct (Hp h).
Qed.

Lemma query_lastInsertId (sql : string) (st : Client.MySql) (w : World) :
  Client.lastInsertId (fst (fst (Client.query T sql st w))) =
    match Client.answered_id T sql st w with
    | Some i => Some i
    | None => Client.lastInsertId st
    end.
Proof.
  unfold Client.answered_id, Client.lastInsertId.
  pose proof (connect_lastInsertId T st w) as Hl.
  destruct (Client.connect T st w) as [[st1 w1] p] eqn:Hconn.
  simpl in Hl. destruct p as [|h|r].
  - rewrite (query_unconnected sql _ _ _ _ _ Hconn) by discriminate.
    exact Hl.
  - rewrite (query_connected sql _ _ _ _ _ Hconn).
    destruct (on_query T h (log w1) sql) as [[e|] data]; simpl;
      [exact Hl|].
    destruct data as [|rows|[i|]]; simpl; first [reflexivity | exact Hl].
  - rewrite (query_unconnected sql _ _ _ _ _ Hconn) by discriminate.
    exact Hl.
Qed.

Lemma disconnect_lastInsertId (st : Client.MySql) (w : World) :
  Client.lastInsertId (fst (fst (Client.disconnect st w)))
  = Client.lastInsertId st.
Proof. unfold Client.disconnect. now destruct (Client._client st). Qed.

Lemma step_lastInsertId (o : Client.op) (st : Client.MySql) (w : World) :
  Client.lastInsertId (fst (Client.step T o st w)) =
    match o with
    | Client.Query sql =>
        match Client.answered_id T sql st w with
        | Some i => Some i
        | None => Client.lastInsertId st
        end
    | _ => Client.lastInsertId st
    end.
Proof.
  destruct o as [| |sql]; simpl.
  - pose proof (connect_lastInsertId T st w) as Hl.
    now destruct (Client.connect T st w) as [[st1 w1] p].
  - pose proof (disconnect_lastInsertId st w) as Hl.
    now destruct (Client.disconnect st w) as [[st1 w1] p].
  - pose proof (query_lastInsertId sql st w) as Hl.
    now destruct (Client.query T sql st w) as [[st1 w1] p].
Qed.

Lemma run_lastInsertId (ops : list Client.op) (st : Client.MySql)
  (w : World) :
  Client.lastInsertId (fst (Client.run T ops st w)) =
    match last (Client.answered_ids T ops st w) with
    | Some i => Some i
    | None => Client.lastInsertId st
    end.
Proof.
  revert st w. induction ops as [|o ops IH]; intros st w; [reflexivity|].
  simpl. pose proof (step_lastInsertId o st w) as Hs.
  destruct (Client.step T o st w) as [st1 w1]. simpl in Hs.
  rewrite IH, last_app, Hs.
  destruct (last (Client.answered_ids T ops st1 w1)); [reflexivity|].
  destruct o as [| |sql]; try reflexivity.
  now destruct (Client.answered_id T sql st w).
Qed.

(** C2.  A new adapter has no last insert id.  A [query] whose connection
    step resolves and whose statement the transport answers without error
    resolves with [true] and records the identifier when the answer carries
    one, resolves with a cursor over the data when it carries none but has
    data, and resolves with [true] otherwise, leaving the recorded identifier
    as it was.  Along any sequence of calls, [lastInsertId()] is the
    identifier of the latest answer that carried one, and what it was at the
    start when there was none. *)
Theorem C2_query_classifies_response :
  (forall o, Client.lastInsertId (Client.constructor o) = None)
  /\ (forall sql st w st1 w1 h data,
        Client.connect T st w = (st1, w1, Resolved h) ->
        on_query T h (log w1) sql = (None, data) ->
        exists st2,
          Client.query T sql st w =
            (st2, call (EvQuery h sql) w1,
             match data_insertId data with
             | Some _ => Resolved QTrue
             | None =>
                 Resolved (if data_truthy data then QCursor data else QTrue)
             end)
          /\ Client.lastInsertId st2 =
               match data_insertId data with
               | Some i => Some i
               | None => Client.lastInsertId st
               end)
  /\ (forall ops st w,
        Client.lastInsertId (fst (Client.run T ops st w)) =
          match last (Client.answered_ids T ops st w) with
          | Some i => Some i
          | None => Client.lastInsertId st
          end).
Proof.
  split; [reflexivity|]. split; [|exact run_lastInsertId].
  intros sql st w st1 w1 h data Hconn Hq.
  pose proof (connect_lastInsertId T st w) as Hl.
  rewrite Hconn in Hl. simpl in Hl.
  rewrite (query_connected sql _ _ _ _ _ Hconn), Hq.
  unfold Client.query_callback, Client.lastInsertId.
  destruct data as [|rows|[i|]]; simpl; eexists; (split; [reflexivity|]);
    simpl; first [reflexivity | exact Hl].
Qed.

End ClientQuery.

Lemma C2_query_classifies_response_witness :
  let st0 := Client.constructor sample_options in
  Client.lastInsertId st0 = None
  /\ snd (Client.query good_server "INSERT INTO gallery" st0 empty_world)
     = Resolved QTrue
  /\ snd (Client.query good_server "SELECT 1" st0 empty_world)
     = Resolved (QCursor (DRows []))
  /\ Client.lastInsertId
       (fst (Client.run good_server
               [Client.Query "SELECT 1"; Client.Query "INSERT INTO gallery";
                Client.Disconnect; Client.Query "SELECT 2"] st0 empty_world))
     = Some 1%Z.
Proof.
  intros st0.
  destruct (C2_query_classifies_response good_server) as (H0 & Hq & Hrun).
  split; [exact (H0 sample_options)|].
  split; [|split].
  - destruct (Hq "INSERT INTO gallery" st0 empty_world _ _ 0 _
                eq_refl eq_refl) as (st2 & -> & _).
    reflexivity.
  - destruct (Hq "SELECT 1" st0 empty_world _ _ 0 _ eq_refl eq_refl)
      as (st2 & -> & _).
    reflexivity.
  - rewrite Hrun. reflexivity.
Defined.

(** ** Errors inside [query] (both versions) *)

Section QueryErrors.

Variable T : Transport.

Lemma driver_resolved (st st1 : Driver.MySql) (w w1 : World) (h : handle) :
  Driver.driver T st w = (st1, w1, Resolved h) ->
  Driver._driver st1 = Some h.
Proof.
  unfold Driver.driver, Driver.connect, Driver.connect_call,
    Driver.connect_callback.
  destruct (Driver._driver st) as [h0|] eqn:Hd.
  - intros [= <- _ <-]. exact Hd.
  - destruct (negb _); [discriminate|]. simpl.
    destruct (on_connect T (next_handle w)); [discriminate|].
    now intros [= <- _ <-].
Qed.

(** C3.  In both versions, a statement that the transport answers with an
    error rejects the promise of [query] with that very error object.  When
    the connection step rejects, nothing settles the promise of [query]: it
    stays pending, and the adapter and the transport are as [connect()] left
    them. *)
Theorem C3_query_error_paths (sql : string) :
  (forall st w st1 w1 h e d,
     Client.connect T st w = (st1, w1, Resolved h) ->
     on_query T h (log w1) sql = (Some e, d) ->
     Client.query T sql st w
       = (st1, call (EvQuery h sql) w1, Rejected (Native e)))
  /\ (forall st w st1 w1 r,
        Client.connect T st w = (st1, w1, Rejected r) ->
        Client.query T sql st w = (st1, w1, Pending))
  /\ (forall st w st1 w1 h e d,
        Driver.driver T st w = (st1, w1, Resolved h) ->
        on_query T h (log w1) sql = (Some e, d) ->
        snd (Driver.query T sql st w) = Rejected (Native e))
  /\ (forall st w st1 w1 r,
        Driver.driver T st w = (st1, w1, Rejected r) ->
        Driver.query T sql st w = (st1, w1, Pending)).
Proof.
  repeat split.
  - intros st w st1 w1 h e d Hconn Hq.
    now rewrite (query_connected T sql _ _ _ _ _ Hconn), Hq.
  - intros st w st1 w1 r Hconn.
    now apply (query_unconnected T sql _ _ _ _ _ Hconn).
  - intros st w st1 w1 h e d Hconn Hq. unfold Driver.query.
    rewrite Hconn, (driver_resolved _ _ _ _ _ Hconn), Hq.
    unfold Driver.query_callback. now destruct (data_truthy d).
  - intros st w st1 w1 r Hconn. unfold Driver.query. now rewrite Hconn.
Qed.

End QueryErrors.

Lemma C3_query_error_paths_witness :
  snd (Client.query good_server "SELECT * FROM"
         (Client.constructor sample_options) empty_world)
    = Rejected (Native syntax_error)
  /\ snd (Client.query good_server "SELECT 1"
            (Client.constructor no_options) empty_world) = Pending
  /\ snd (Client.query no_server "SELECT 1"
            (Client.constructor unreachable_options) empty_world) = Pending
  /\ snd (Driver.query good_server "SELECT * FROM"
            (Driver.constructor sample_options) empty_world)
     = Rejected (Native syntax_error)
  /\ snd (Driver.query no_server "SELECT 1"
            (Driver.constructor unreachable_options) empty_world) = Pending.
Proof.
  destruct (C3_query_error_paths good_server "SELECT * FROM")
    as (Hc1 & _ & Hd1 & _).
  destruct (C3_query_error_paths good_server "SELECT 1")
    as (_ & Hc2 & _ & _).
  destruct (C3_query_error_paths no_server "SELECT 1")
    as (_ & Hc3 & _ & Hd3).
  split; [|split; [|split; [|split]]].
  - now rewrite (Hc1 (Client.constructor sample_options) empty_world
                   _ _ 0 syntax_error DUndefined eq_refl eq_refl).
  - now rewrite (Hc2 (Client.constructor no_options) empty_world
                   _ _ _ eq_refl).
  - now rewrite (Hc3 (Client.constructor unreachable_options) empty_world
                   _ _ _ eq_refl).
  - exact (Hd1 (Driver.constructor sample_options) empty_world
             _ _ 0 syntax_error DUndefined eq_refl eq_refl).
  - now rewrite (Hd3 (Driver.constructor unreachable_options) empty_world
                   _ _ _ eq_refl).
Defined.

(** ** A connection attempt that fails *)

Section FailedConnect.

Variable T : Transport.

(** C4.  When the transport refuses the connection, [connect()] rejects with
    a message that holds the native error code and stack, and the flag read
    by [connected()] is not changed.  The connection object created for the
    attempt stays cached all the same: the next [connect()] makes no
    transport call and resolves with that object. *)
Theorem C4_failed_connect_keeps_handle (st : Client.MySql) (w : World)
  (e : NativeError) :
  Client._client st = None ->
  truthy_str (database (Client._config st)) = true ->
  on_connect T (next_handle w) = Some e ->
  exists st1 w1,
    Client.connect T st w =
      (st1, w1,
       Rejected (NewError ("Unable to connect to host , error "
                           +:+ code e +:+ " " +:+ stack e)))
    /\ Client.connected st1 = Client.connected st
    /\ Client._client st1 = Some (next_handle w)
    /\ Client.connect T st1 w1 = (st1, w1, Resolved (next_handle w)).
Proof.
  intros Hc Hdb He. eexists. eexists.
  unfold Client.connect at 1. rewrite (connect_opens st w Hc Hdb).
  simpl. rewrite He. simpl.
  split; [reflexivity|]. split; [reflexivity|]. split; [reflexivity|].
  now apply connect_cached.
Qed.

(** In the second version [connected()] even answers [true] after the
    failed attempt. *)
Lemma driver_failed_connect_connected (st : Driver.MySql) (w : World)
  (e : NativeError) :
  Driver._driver st = None ->
  truthy_str (database (Driver._config st)) = true ->
  on_connect T (next_handle w) = Some e ->
  exists st1 w1 r,
    Driver.connect T st w = (st1, w1, Rejected r)
    /\ Driver.connected st1 = true.
Proof.
  intros Hd Hdb He. unfold Driver.connect, Driver.connect_call, Driver.config.
  rewrite Hd, Hdb. simpl. rewrite He. simpl.
  eexists. eexists. eexists. split; reflexivity.
Qed.

(** In the second version [connected()] tells whether a handle is cached,
    so it is [true] right after construction with an injected handle. *)
Lemma driver_connected_after_construction (o : Options) :
  Driver.connected (Driver.constructor o) = bool_decide (is_Some (opt_client o)).
Proof. unfold Driver.connected. simpl. now destruct (opt_client o). Qed.

End FailedConnect.

Lemma C4_failed_connect_keeps_handle_witness :
  exists st1 w1,
    Client.connect no_server (Client.constructor unreachable_options)
      empty_world =
      (st1, w1,
       Rejected (NewError "Unable to connect to host , error ENOTFOUND Error: getaddrinfo ENOTFOUND hostlocal"))
    /\ Client.connected st1 = false
    /\ Client._client st1 = Some 0
    /\ Client.connect no_server st1 w1 = (st1, w1, Resolved 0).
Proof.
  destruct (C4_failed_connect_keeps_handle no_server
              (Client.constructor unreachable_options) empty_world enotfound
              eq_refl eq_refl eq_refl) as (st1 & w1 & H1 & H2 & H3 & H4).
  exists st1, w1. repeat split; assumption.
Defined.

(** ** The connected flag (first version) *)

Section ConnectedFlag.

Variable T : Transport.

Lemma flag_justified_log (n0 : handle) (st st' : Client.MySql)
  (w : World) (e : event) :
  Client.connected st' = Client.connected st ->
  flag_justified T n0 st w -> flag_justified T n0 st' (call e w).
Proof.
  intros Heq [Hn Hf]. split; [exact Hn|].
  rewrite Heq. intros Hc. destruct (Hf Hc) as (h & Hh & Hin & Hok).
  exists h. simpl. rewrite in_app_iff. auto.
Qed.

Lemma connect_flag_justified (n0 : handle) (st : Client.MySql) (w : World) :
  flag_justified T n0 st w ->
  flag_justified T n0 (fst (fst (Client.connect T st w)))
    (snd (fst (Client.connect T st w))).
Proof.
  intros [Hn Hf].
  unfold Client.connect, Client.connect_call, Client.connect_callback.
  destruct (Client._client st) as [h|]; [now split|].
  destruct (negb _); [now split|]. simpl.
  destruct (on_connect T (next_handle w)) eqn:Hok; simpl.
  - split; [simpl; lia|]. intros Hc.
    destruct (Hf Hc) as (h & Hh & Hin & Hacc).
    exists h. simpl. rewrite !in_app_iff. auto.
  - split; [simpl; lia|]. intros _.
    exists (next_handle w). simpl. rewrite !in_app_iff. simpl. auto.
Qed.

Lemma step_flag_justified (n0 : handle) (o : Client.op) (st : Client.MySql)
  (w : World) :
  flag_justified T n0 st w ->
  flag_justified T n0 (fst (Client.step T o st w)) (snd (Client.step T o st w)).
Proof.
  intros Hj. pose proof (connect_flag_justified n0 st w Hj) as Hcj.
  destruct o as [| |sql]; simpl.
  - now destruct (Client.connect T st w) as [[st1 w1] p].
  - unfold Client.disconnect. destruct (Client._client st); [|exact Hj].
    simpl. split; [apply Hj|]. discriminate.
  - unfold Client.query.
    destruct (Client.connect T st w) as [[st1 w1] [|h|r]]; simpl in *;
      try exact Hcj.
    destruct (Client._client st1) as [h1|]; [|exact Hcj].
    destruct (on_query T h1 (log w1) sql) as [err data].
    destruct (Client.query_callback err data st1) as [st2 p] eqn:Hcb.
    cbn [fst snd]. apply (flag_justified_log n0 st1); [|exact Hcj].
    unfold Client.query_callback in Hcb.
    destruct err; [now injection Hcb as <- _|].
    destruct (if data_truthy data then data_insertId data else None);
      now injection Hcb as <- _.
Qed.

Lemma run_flag_justified (n0 : handle) (ops : list Client.op)
  (st : Client.MySql) (w : World) :
  flag_justified T n0 st w ->
  flag_justified T n0 (fst (Client.run T ops st w)) (snd (Client.run T ops st w)).
Proof.
  revert st w. induction ops as [|o ops IH]; intros st w Hj; [exact Hj|].
  simpl. pose proof (step_flag_justified n0 o st w Hj) as Hs.
  destruct (Client.step T o st w) as [st1 w1]. now apply IH.
Qed.

(** A [connect()] that had no cached handle and resolves has set the
    flag. *)
Lemma connect_sets_flag (st st1 : Client.MySql) (w w1 : World) (h : handle) :
  Client._client st = None ->
  Client.connect T st w = (st1, w1, Resolved h) ->
  Client.connected st1 = true.
Proof.
  intros Hc.
  unfold Client.connect, Client.connect_call, Client.connect_callback.
  rewrite Hc. destruct (negb _); [discriminate|]. simpl.
  destruct (on_connect T (next_handle w)); [discriminate|].
  now intros [= <- _ _].
Qed.

(** C9, as the code has it.  Right after construction [connected()] answers
    [false], with or without an injected client handle.  Whatever calls
    follow, it answers [true] only after the transport has accepted a
    connection that one of these calls opened.  Of the pieces that these
    calls are made of, only the callback of an accepted connection attempt
    sets the flag: [connect()] up to its return and the callback of a query
    leave it as it is, [disconnect()] and the callback of a refused attempt
    never set it. *)
Theorem C9_connected_starts_false :
  (forall o, Client.connected (Client.constructor o) = false)
  /\ (forall o ops w,
        Client.connected (fst (Client.run T ops (Client.constructor o) w))
          = true ->
        exists h,
          next_handle w <= h
          /\ In (EvConnect h)
               (log (snd (Client.run T ops (Client.constructor o) w)))
          /\ on_connect T h = None)
  /\ (forall st w err data h,
        Client.connected (fst (fst (Client.connect_call st w)))
          = Client.connected st
        /\ Client.connected (fst (Client.query_callback err data st))
           = Client.connected st
        /\ (Client.connected (fst (fst (Client.disconnect st w))) = true ->
            Client.connected st = true)
        /\ (Client.connected (fst (Client.connect_callback err h st)) = true ->
            Client.connected st = true \/ err = None)).
Proof.
  split; [reflexivity|]. split.
  - intros o ops w.
    apply (run_flag_justified (next_handle w) ops (Client.constructor o) w).
    split; [lia|]. discriminate.
  - intros st w err data h. split; [|split; [|split]].
    + unfold Client.connect_call.
      destruct (Client._client st); [reflexivity|].
      now destruct (negb _).
    + unfold Client.query_callback. destruct err; [reflexivity|].
      now destruct (if data_truthy data then data_insertId data else None).
    + unfold Client.disconnect.
      destruct (Client._client st); [discriminate|auto].
    + destruct err; simpl; auto.
Qed.

End ConnectedFlag.

Lemma C9_connected_starts_false_witness :
  Client.connected (Client.constructor injected_options) = false
  /\ Client.connected
       (fst (fst (Client.connect good_server
                    (Client.constructor sample_options) empty_world)))
     = true
  /\ exists h,
       In (EvConnect h)
         (log (snd (Client.run good_server
                      [Client.Query "SELECT 1"]
                      (Client.constructor sample_options) empty_world)))
       /\ on_connect good_server h = None.
Proof.
  destruct (C9_connected_starts_false good_server) as (H0 & Hrun & _).
  split; [exact (H0 injected_options)|]. split.
  - reflexivity.
  - destruct (Hrun sample_options [Client.Query "SELECT 1"] empty_world
                eq_refl) as (h & _ & Hin & Hok).
    now exists h.
Defined.

(** An adapter built around an injected client handle does not report the
    connected state: [connected()] is [false] after construction, and stays
    [false] after a [connect()] that resolves with the injected handle. *)
Lemma C9_counterexample :
  let st := Client.constructor injected_options in
  Client.client st = Some 0
  /\ Client.connected st = false
  /\ Client.connect good_server st injected_world
     = (st, injected_world, Resolved 0).
Proof. repeat split. Qed.

(** ** The frame of [disconnect] (first version) *)

(** C10.  [disconnect()] returns [true] and changes nothing but the cached
    handle and the connected flag: the adapter afterwards is the adapter
    before with these two entries replaced.  So [lastInsertId()] answers the
    same before and after, in particular the identifier that a query has just
    recorded. *)
Theorem C10_disconnect_keeps_lastInsertId (st : Client.MySql) (w : World) :
  (let '(st1, _, r) := Client.disconnect st w in
   r = true
   /\ Client.lastInsertId st1 = Client.lastInsertId st
   /\ st1 = Client.set_connected (Client._connected st1)
              (Client.set_client (Client._client st1) st))
  /\ (forall T sql i,
        Client.answered_id T sql st w = Some i ->
        let '(st1, w1, _) := Client.query T sql st w in
        Client.lastInsertId st1 = Some i
        /\ Client.lastInsertId (fst (fst (Client.disconnect st1 w1)))
           = Some i).
Proof.
  split.
  - unfold Client.disconnect. destruct st as [c a [h|] b i]; simpl.
    + repeat split.
    + repeat split.
  - intros T sql i Hid.
    pose proof (query_lastInsertId T sql st w) as Hq. rewrite Hid in Hq.
    destruct (Client.query T sql st w) as [[st1 w1] p]. simpl in Hq.
    split; [exact Hq|]. now rewrite disconnect_lastInsertId.
Qed.

Lemma C10_disconnect_keeps_lastInsertId_witness :
  let '(st1, w1, _) :=
    Client.query good_server "INSERT INTO gallery"
      (Client.constructor sample_options) empty_world in
  Client.lastInsertId st1 = Some 1%Z
  /\ Client.lastInsertId (fst (fst (Client.disconnect st1 w1))) = Some 1%Z.
Proof.
  exact (proj2 (C10_disconnect_keeps_lastInsertId
                  (Client.constructor sample_options) empty_world)
           good_server "INSERT INTO gallery" 1%Z eq_refl).
Defined.

(** ** The vendor type parser *)

Lemma span_app (p : ascii -> bool) (a b : string) :
  all_chars p a = true -> stops p b = true -> span p (a +:+ b) = (a, b).
Proof.
  intros Ha Hb. induction a as [|c a IH]; simpl in *.
  - destruct b as [|c b]; [reflexivity|]. simpl in *.
    now destruct (p c).
  - apply andb_true_iff in Ha as [Hc Ha]. now rewrite Hc, IH.
Qed.

Lemma span_all (p : ascii -> bool) (a : string) :
  all_chars p a = true -> span p a = (a, EmptyString).
Proof.
  intros Ha. induction a as [|c a IH]; simpl in *; [reflexivity|].
  apply andb_true_iff in Ha as [Hc Ha]. now rewrite Hc, IH.
Qed.

Lemma all_chars_app (p : ascii -> bool) (a b : string) :
  all_chars p (a +:+ b) = all_chars p a && all_chars p b.
Proof.
  induction a as [|c a IH]; simpl; [reflexivity|].
  now rewrite IH, andb_assoc.
Qed.

Lemma append_assoc (a b c : string) : (a +:+ b) +:+ c = a +:+ b +:+ c.
Proof.
  induction a as [|x a IH]; [reflexivity|].
  change (String x ((a +:+ b) +:+ c) = String x (a +:+ b +:+ c)).
  now rewrite IH.
Qed.

Lemma all_chars_weaken (p q : ascii -> bool) (s : string) :
  (forall c, p c = true -> q c = true) ->
  all_chars p s = true -> all_chars q s = true.
Proof.
  intros Hpq. induction s as [|c s IH]; simpl; [reflexivity|].
  intros [Hc Hs]%andb_true_iff. now rewrite (Hpq c Hc), IH.
Qed.

Lemma is_digit_not_comma (c : ascii) :
  is_digit c = true -> Ascii.eqb c "," = false.
Proof.
  intros Hd. destruct (Ascii.eqb_spec c ","); [|reflexivity].
  subst c. discriminate.
Qed.

(** A run of digits has no comma to split at. *)
Lemma split_comma_digits (s : string) :
  all_chars is_digit s = true -> split_comma s = [s].
Proof.
  induction s as [|c s IH]; simpl; [reflexivity|].
  intros [Hc Hs]%andb_true_iff.
  now rewrite (is_digit_not_comma c Hc), (IH Hs).
Qed.

Lemma split_comma_pair (n m : string) :
  all_chars is_digit n = true -> all_chars is_digit m = true ->
  split_comma (n +:+ "," +:+ m) = [n; m].
Proof.
  intros Hn Hm. induction n as [|c n IH]; simpl in *.
  - change (EmptyString +:+ m) with m.
    now rewrite (split_comma_digits m Hm).
  - apply andb_true_iff in Hn as [Hc Hn].
    now rewrite (is_digit_not_comma c Hc), (IH Hn).
Qed.

Lemma parseInt_digits (n : string) :
  digits n -> parseInt n = to_double (digits_value 0 n).
Proof.
  intros [Hne Hn]. unfold parseInt. rewrite (span_all _ _ Hn). simpl.
  now destruct n.
Qed.

Lemma to_double_exact (z : Z) : (z < 2 ^ 53)%Z -> to_double z = Num z.
Proof.
  intros Hz. unfold to_double.
  now rewrite (proj2 (Z.ltb_lt z (2 ^ 53)) Hz).
Qed.

Lemma parseInt_small (n : string) :
  digits n -> small n -> parseInt n = Num (digits_value 0 n).
Proof.
  intros Hn Hs. rewrite (parseInt_digits n Hn). now apply to_double_exact.
Qed.

(** Beyond 2^53 the length is the nearest double, not the integer
    written. *)
Example parseInt_rounds :
  parseInt "9007199254740991" = Num 9007199254740991
  /\ parseInt "9007199254740993" = Num 9007199254740992
  /\ parseInt "9007199254740995" = Num 9007199254740996
  /\ to_double (10 ^ 400) = Infinity.
Proof. vm_compute. repeat split. Qed.

Lemma truthy_nonempty (s : string) :
  s <> EmptyString -> truthy (VStr s) = true.
Proof. intros Hs. now destruct s. Qed.

(** The match on a text that starts with a base name. *)
Lemma type_match_base (base rest : string) :
  base_name base -> stops is_word rest = true ->
  type_match (base +:+ rest) = Some (base, paren_group rest).
Proof.
  intros [Hne Hb] Hr. destruct base as [|c base]; [now destruct Hne|].
  pose proof (span_app is_word (String c base) rest Hb Hr) as Hs.
  simpl in Hb. apply andb_true_iff in Hb as [Hc Hb].
  change (String c base +:+ rest) with (String c (base +:+ rest)) in *.
  cbn [type_match]. now rewrite Hc, Hs.
Qed.

(** The parenthesised part, when its inside is made of digits and commas
    and it is closed. *)
Lemma paren_group_closed (g rest : string) :
  g <> EmptyString -> all_chars is_digit_or_comma g = true ->
  paren_group ("(" +:+ g +:+ ")" +:+ rest) = Some g.
Proof.
  intros Hne Hg.
  change ("(" +:+ g +:+ ")" +:+ rest) with (String "(" (g +:+ ")" +:+ rest)).
  cbn [paren_group].
  rewrite (span_app is_digit_or_comma g (")" +:+ rest) Hg eq_refl).
  now destruct g.
Qed.

Lemma digits_group (n : string) :
  all_chars is_digit n = true -> all_chars is_digit_or_comma n = true.
Proof.
  apply all_chars_weaken. intros c Hc. unfold is_digit_or_comma.
  now rewrite Hc.
Qed.

Section Parser.

Variable mapped : Field -> string.

Lemma field_of_type (column : Row) (real : string) :
  prop column "Type" = VStr real ->
  Client._field mapped column = parse_type mapped real.
Proof. intros Ht. unfold Client._field. now rewrite Ht. Qed.

Lemma parse_type_absent (base rest : string) :
  base_name base -> stops is_word rest = true -> paren_group rest = None ->
  parse_type mapped (base +:+ rest) = Some (parsed mapped base VUndefined None).
Proof.
  intros Hb Hr Hp. unfold parse_type.
  now rewrite (type_match_base base rest Hb Hr), Hp.
Qed.

Lemma parse_type_length (base n rest : string) :
  base_name base -> digits n -> small n ->
  parse_type mapped (base +:+ "(" +:+ n +:+ ")" +:+ rest)
  = Some (parsed mapped base (VNum (Num (digits_value 0 n))) None).
Proof.
  intros Hb [Hne Hn] Hsn. unfold parse_type.
  rewrite (type_match_base base ("(" +:+ n +:+ ")" +:+ rest) Hb eq_refl).
  rewrite (paren_group_closed n rest Hne (digits_group n Hn)).
  rewrite (truthy_nonempty n Hne), (split_comma_digits n Hn).
  cbn [nth nth_error]. now rewrite (parseInt_small n (conj Hne Hn) Hsn).
Qed.

Lemma parse_type_length_precision (base n m rest : string) :
  base_name base -> digits n -> digits m -> small n -> small m ->
  parse_type mapped (base +:+ "(" +:+ n +:+ "," +:+ m +:+ ")" +:+ rest)
  = Some (parsed mapped base (VNum (Num (digits_value 0 n)))
            (Some (Num (digits_value 0 m)))).
Proof.
  intros Hb [Hnn Hn] [Hmm Hm] Hsn Hsm. unfold parse_type.
  rewrite (type_match_base base
             ("(" +:+ n +:+ "," +:+ m +:+ ")" +:+ rest) Hb eq_refl).
  assert (Hg : all_chars is_digit_or_comma (n +:+ "," +:+ m) = true).
  { rewrite all_chars_app, (digits_group n Hn).
    change ("," +:+ m) with (String "," m). simpl.
    now rewrite (digits_group m Hm). }
  assert (Hgne : n +:+ "," +:+ m <> EmptyString) by now destruct n.
  replace (n +:+ "," +:+ m +:+ ")" +:+ rest)
    with ((n +:+ "," +:+ m) +:+ ")" +:+ rest)
    by now rewrite !append_assoc.
  rewrite (paren_group_closed _ rest Hgne Hg).
  rewrite (truthy_nonempty _ Hgne), (split_comma_pair n m Hn Hm).
  cbn [nth nth_error].
  now rewrite (truthy_nonempty m Hmm), (parseInt_small n (conj Hnn Hn) Hsn),
    (parseInt_small m (conj Hmm Hm) Hsm).
Qed.

Lemma parse_type_mapped (real : string) (f : Field) :
  parse_type mapped real = Some f ->
  f = parsed mapped (field_use f) (field_length f) (field_precision f).
Proof.
  unfold parse_type. destruct (type_match real) as [[m1 m2]|]; [|discriminate].
  destruct m2 as [g|].
  - destruct (truthy (VStr g)); now intros [= <-].
  - now intros [= <-].
Qed.

(** C6.  [_field] reads a base name followed or not by [(n)] or [(n,m)].
    For [decimal(10,2)] the use type is [decimal], the length the integer 10
    and the precision the integer 2; in general the length and the precision
    are the integers that the digits of [n] and [m] denote, as long as these
    are below 2^53 (beyond, a double is not the integer itself).  When no
    parenthesised part follows the base name, the length is undefined and
    there is no precision.  The logical type is in every case what the
    dialect's [mapped] answers for the parsed object. *)
Theorem C6_vendor_type_parse :
  (forall column,
     prop column "Type" = VStr "decimal(10,2)" ->
     Client._field mapped column
     = Some (parsed mapped "decimal" (VNum (Num 10)) (Some (Num 2))))
  /\ (forall column base n m rest,
        base_name base -> digits n -> digits m -> small n -> small m ->
        prop column "Type"
          = VStr (base +:+ "(" +:+ n +:+ "," +:+ m +:+ ")" +:+ rest) ->
        Client._field mapped column
        = Some (parsed mapped base (VNum (Num (digits_value 0 n)))
                  (Some (Num (digits_value 0 m)))))
  /\ (forall column base n rest,
        base_name base -> digits n -> small n ->
        prop column "Type" = VStr (base +:+ "(" +:+ n +:+ ")" +:+ rest) ->
        Client._field mapped column
        = Some (parsed mapped base (VNum (Num (digits_value 0 n))) None))
  /\ (forall column base rest,
        base_name base -> stops is_word rest = true ->
        paren_group rest = None ->
        prop column "Type" = VStr (base +:+ rest) ->
        Client._field mapped column = Some (parsed mapped base VUndefined None))
  /\ (forall column f,
        Client._field mapped column = Some f ->
        field_type f
        = mapped (mkField (field_use f) (field_length f) (field_use f)
                    (field_precision f))).
Proof.
  split; [|split; [|split; [|split]]].
  - intros column Ht. rewrite (field_of_type _ _ Ht).
    apply (parse_type_length_precision "decimal" "10" "2" "");
      repeat split; discriminate.
  - intros column base n m rest Hb Hn Hm Hsn Hsm Ht.
    rewrite (field_of_type _ _ Ht).
    now apply parse_type_length_precision.
  - intros column base n rest Hb Hn Hsn Ht. rewrite (field_of_type _ _ Ht).
    now apply parse_type_length.
  - intros column base rest Hb Hr Hp Ht. rewrite (field_of_type _ _ Ht).
    now apply parse_type_absent.
  - intros column f. unfold Client._field.
    destruct (prop column "Type"); try discriminate.
    intros Hf. rewrite (parse_type_mapped _ _ Hf) at 1. reflexivity.
Qed.

End Parser.

Lemma C6_vendor_type_parse_witness :
  Client._field sample_mapped (mk_column "money" "decimal(10,2)" "YES" VNull)
  = Some (mkField "decimal" (VNum (Num 10)) "decimal" (Some (Num 2)))
  /\ Client._field sample_mapped (mk_column "id" "int(11)" "NO" VNull)
     = Some (mkField "integer" (VNum (Num 11)) "int" None)
  /\ Client._field sample_mapped
       (mk_column "created" "timestamp" "NO" (VStr "CURRENT_TIMESTAMP"))
     = Some (mkField "datetime" VUndefined "timestamp" None).
Proof.
  destruct (C6_vendor_type_parse sample_mapped) as (Hex & _ & Hn & Habs & _).
  split; [|split].
  - exact (Hex (mk_column "money" "decimal(10,2)" "YES" VNull) eq_refl).
  - apply (Hn (mk_column "id" "int(11)" "NO" VNull) "int" "11" "");
      repeat split; discriminate.
  - apply (Habs (mk_column "created" "timestamp" "NO" (VStr "CURRENT_TIMESTAMP"))
             "timestamp" "");
      repeat split; discriminate.
Defined.

(** ** The normalization of defaults *)

Lemma datetime_default_spec (raw : jsval) :
  datetime_default raw = spec_datetime_default raw.
Proof.
  unfold datetime_default.
  destruct raw as [| |b|[|z|]|s]; try reflexivity. simpl.
  now destruct (String.eqb s "CURRENT_TIMESTAMP").
Qed.

Lemma spec_datetime_default_sentinel :
  spec_datetime_default (VStr "CURRENT_TIMESTAMP") = VNull.
Proof. reflexivity. Qed.

Lemma spec_datetime_default_other (raw : jsval) :
  raw <> VStr "CURRENT_TIMESTAMP" -> spec_datetime_default raw = raw.
Proof.
  intros Hne. destruct raw as [| |b|n|s]; try reflexivity. simpl.
  destruct (String.eqb s "CURRENT_TIMESTAMP") eqn:Hs; [|reflexivity].
  apply String.eqb_eq in Hs. congruence.
Qed.

Section Fields.

Variable mapped : Field -> string.

Lemma client_fields_loop (columns : list Row)
  (fs : list (string * FieldDescriptor)) :
  Client.fields_loop mapped columns = Some fs ->
  Forall2 (fun column e => Client.fields_step mapped column = Some e)
    columns fs.
Proof.
  revert fs. induction columns as [|column columns IH]; simpl; intros fs.
  - intros [= <-]. constructor.
  - destruct (Client.fields_step mapped column) as [e|] eqn:He;
      [|discriminate].
    destruct (Client.fields_loop mapped columns) as [fs'|]; [|discriminate].
    intros [= <-]. constructor; [exact He|now apply IH].
Qed.

Lemma driver_fields_loop (columns : list Row)
  (fs : list (string * FieldDescriptor)) :
  Driver.fields_loop mapped columns = Some fs ->
  Forall2 (fun column e => Driver.fields_step mapped column = Some e)
    columns fs.
Proof.
  revert fs. induction columns as [|column columns IH]; simpl; intros fs.
  - intros [= <-]. constructor.
  - destruct (Driver.fields_step mapped column) as [e|] eqn:He;
      [|discriminate].
    destruct (Driver.fields_loop mapped columns) as [fs'|]; [|discriminate].
    intros [= <-]. constructor; [exact He|now apply IH].
Qed.

(** When [fields] resolves, [query] has resolved with a cursor and the list
    holds one entry per row of the cursor, in order. *)
Lemma client_fields_resolved (iterate : Data -> list Row) (T : Transport)
  (name : string) (st st1 : Client.MySql) (w w1 : World)
  (fs : list (string * FieldDescriptor)) :
  Client.fields mapped iterate T name st w = (st1, w1, Resolved fs) ->
  exists d,
    Client.query T ("DESCRIBE " +:+ name) st w = (st1, w1, Resolved (QCursor d))
    /\ Forall2 (fun column e => Client.fields_step mapped column = Some e)
         (iterate d) fs.
Proof.
  unfold Client.fields.
  destruct (Client.query T ("DESCRIBE " +:+ name) st w) as [[st' w'] q].
  destruct q as [|[|d|d]|r]; try discriminate.
  destruct (Client.fields_loop mapped (iterate d)) as [fs'|] eqn:Hl;
    [|discriminate].
  intros [= <- <- <-]. exists d. split; [reflexivity|].
  now apply client_fields_loop.
Qed.

Lemma driver_fields_resolved (iterate : Data -> list Row) (T : Transport)
  (name : string) (st st1 : Driver.MySql) (w w1 : World)
  (fs : list (string * FieldDescriptor)) :
  Driver.fields mapped iterate T name st w = (st1, w1, Resolved fs) ->
  exists d,
    Driver.query T ("DESCRIBE " +:+ name) st w = (st1, w1, Resolved (QCursor d))
    /\ Forall2 (fun column e => Driver.fields_step mapped column = Some e)
         (iterate d) fs.
Proof.
  unfold Driver.fields.
  destruct (Driver.query T ("DESCRIBE " +:+ name) st w) as [[st' w'] q].
  destruct q as [|[|d|d]|r]; try discriminate.
  destruct (Driver.fields_loop mapped (iterate d)) as [fs'|] eqn:Hl;
    [|discriminate].
  intros [= <- <- <-]. exists d. split; [reflexivity|].
  now apply driver_fields_loop.
Qed.

(** The default of a column in the first version, by logical type. *)
Lemma client_step_default (column : Row) (key : string)
  (fd : FieldDescriptor) :
  Client.fields_step mapped column = Some (key, fd) ->
  d_default fd =
    if String.eqb (d_type fd) "boolean" then
      VBool (strict_eq (prop column "Default") (VStr "1"))
    else if String.eqb (d_type fd) "datetime" then
      datetime_default (prop column "Default")
    else prop column "Default".
Proof.
  unfold Client.fields_step.
  destruct (Client._field mapped column) as [field|]; [|discriminate].
  now intros [= <- <-].
Qed.

(** The default of a column in the second version, by logical type. *)
Lemma driver_step_default (column : Row) (key : string)
  (fd : FieldDescriptor) :
  Driver.fields_step mapped column = Some (key, fd) ->
  d_default fd =
    if String.eqb (d_type fd) "boolean" then
      spec_boolean_default (prop column "Default")
    else if String.eqb (d_type fd) "datetime" then
      datetime_default (prop column "Default")
    else prop column "Default".
Proof.
  unfold Driver.fields_step.
  destruct (prop column "Type") as [| |b|n|real]; try discriminate.
  destruct (Driver._column mapped real) as [field|]; [|discriminate].
  intros [= <- <-]. simpl.
  destruct (String.eqb (field_type field) "boolean"); [|reflexivity].
  destruct (prop column "Default") as [| |b|[|z|]|s]; try reflexivity.
  simpl. destruct (String.eqb s "1"); reflexivity.
Qed.

End Fields.

(** C7.  In [fields], a column whose logical type is [datetime] gets the
    default null when its raw default is the text [CURRENT_TIMESTAMP], and
    its raw default unchanged otherwise; this holds for every entry of the
    list that [fields] resolves with. *)
Theorem C7_datetime_default (mapped : Field -> string) :
  (forall column key fd,
     Client.fields_step mapped column = Some (key, fd) ->
     d_type fd = "datetime" ->
     d_default fd = spec_datetime_default (prop column "Default")
     /\ (prop column "Default" = VStr "CURRENT_TIMESTAMP" ->
         d_default fd = VNull)
     /\ (prop column "Default" <> VStr "CURRENT_TIMESTAMP" ->
         d_default fd = prop column "Default"))
  /\ (forall iterate T name st w st1 w1 fs,
        Client.fields mapped iterate T name st w = (st1, w1, Resolved fs) ->
        exists d,
          Client.query T ("DESCRIBE " +:+ name) st w
            = (st1, w1, Resolved (QCursor d))
          /\ Forall2
               (fun column e =>
                  d_type (snd e) = "datetime" ->
                  d_default (snd e)
                  = spec_datetime_default (prop column "Default"))
               (iterate d) fs).
Proof.
  assert (Hstep : forall column key fd,
            Client.fields_step mapped column = Some (key, fd) ->
            d_type fd = "datetime" ->
            d_default fd = spec_datetime_default (prop column "Default")).
  { intros column key fd Hs Ht.
    rewrite (client_step_default mapped column key fd Hs), Ht.
    apply datetime_default_spec. }
  split.
  - intros column key fd Hs Ht. pose proof (Hstep column key fd Hs Ht) as Hd.
    split; [exact Hd|]. split.
    + intros Hraw. now rewrite Hd, Hraw.
    + intros Hraw. rewrite Hd. now apply spec_datetime_default_other.
  - intros iterate T name st w st1 w1 fs Hf.
    destruct (client_fields_resolved mapped iterate T name _ _ _ _ _ Hf)
      as (d & Hq & Hall).
    exists d. split; [exact Hq|].
    eapply Forall2_impl; [exact Hall|].
    intros column [key fd] Hs Ht. exact (Hstep column key fd Hs Ht).
Qed.

Lemma C7_datetime_default_witness :
  (exists key fd,
     Client.fields_step sample_mapped
       (mk_column "created" "timestamp" "YES" (VStr "CURRENT_TIMESTAMP"))
       = Some (key, fd)
     /\ d_default fd = VNull)
  /\ (exists key fd,
        Client.fields_step sample_mapped
          (mk_column "updated" "timestamp" "YES" (VStr "2014-11-21 10:20:45"))
          = Some (key, fd)
        /\ d_default fd = VStr "2014-11-21 10:20:45")
  /\ exists fs,
       snd (Client.fields sample_mapped sample_iterate gallery_server
              "gallery" (Client.constructor sample_options) empty_world)
         = Resolved fs
       /\ (d_default <$> (snd <$> fs) !! 5) = Some VNull.
Proof.
  destruct (C7_datetime_default sample_mapped) as [Hstep Hfields].
  split; [|split].
  - eexists. eexists. split; [reflexivity|].
    eapply (Hstep (mk_column "created" "timestamp" "YES"
                     (VStr "CURRENT_TIMESTAMP")));
      reflexivity.
  - eexists. eexists. split; [reflexivity|].
    refine (proj2 (proj2 (Hstep (mk_column "updated" "timestamp" "YES"
                                   (VStr "2014-11-21 10:20:45"))
                            _ _ eq_refl eq_refl)) _).
    discriminate.
  - eexists. split; reflexivity.
Defined.

(** The first version of [fields] does not pass other raw defaults of a
    boolean column through: a nullable boolean column without a default
    ([Default] is null) is described with the default [false]. *)
Lemma C5_counterexample :
  ~ boolean_default_passes_through Client.fields_step.
Proof.
  intros H.
  specialize (H sample_mapped (mk_column "active" "tinyint(1)" "YES" VNull)
                _ _ eq_refl eq_refl).
  discriminate H.
Qed.

(** C5, as the code has it.  In both versions of [fields] a boolean column
    with the raw default ['1'] gets the default true and one with ['0'] gets
    false.  Any other raw default is passed through unchanged by the second
    version; the first version, which assigns [dflt === '1'], turns it into
    false. *)
Theorem C5_boolean_default (mapped : Field -> string) :
  boolean_default_passes_through Driver.fields_step
  /\ (forall column key fd,
        Client.fields_step mapped column = Some (key, fd) ->
        d_type fd = "boolean" ->
        d_default fd = VBool (strict_eq (prop column "Default") (VStr "1"))
        /\ (prop column "Default" = VStr "1" -> d_default fd = VBool true)
        /\ (prop column "Default" <> VStr "1" -> d_default fd = VBool false))
  /\ (forall iterate T name st w st1 w1 fs,
        Driver.fields mapped iterate T name st w = (st1, w1, Resolved fs) ->
        exists d,
          Driver.query T ("DESCRIBE " +:+ name) st w
            = (st1, w1, Resolved (QCursor d))
          /\ Forall2
               (fun column e =>
                  d_type (snd e) = "boolean" ->
                  d_default (snd e)
                  = spec_boolean_default (prop column "Default"))
               (iterate d) fs)
  /\ (forall iterate T name st w st1 w1 fs,
        Client.fields mapped iterate T name st w = (st1, w1, Resolved fs) ->
        exists d,
          Client.query T ("DESCRIBE " +:+ name) st w
            = (st1, w1, Resolved (QCursor d))
          /\ Forall2
               (fun column e =>
                  d_type (snd e) = "boolean" ->
                  d_default (snd e)
                  = VBool (strict_eq (prop column "Default") (VStr "1")))
               (iterate d) fs).
Proof.
  assert (Hdriver : boolean_default_passes_through Driver.fields_step).
  { intros mapped' column key fd Hs Ht.
    now rewrite (driver_step_default mapped' column key fd Hs), Ht. }
  assert (Hclient : forall column key fd,
            Client.fields_step mapped column = Some (key, fd) ->
            d_type fd = "boolean" ->
            d_default fd
            = VBool (strict_eq (prop column "Default") (VStr "1"))).
  { intros column key fd Hs Ht.
    now rewrite (client_step_default mapped column key fd Hs), Ht. }
  split; [exact Hdriver|]. split; [|split].
  - intros column key fd Hs Ht. pose proof (Hclient column key fd Hs Ht) as Hd.
    split; [exact Hd|]. split.
    + intros Hraw. now rewrite Hd, Hraw.
    + intros Hraw. rewrite Hd. f_equal.
      destruct (prop column "Default") as [| |b|[|z|]|s]; try reflexivity.
      simpl. destruct (String.eqb s "1") eqn:Hs1; [|reflexivity].
      apply String.eqb_eq in Hs1. congruence.
  - intros iterate T name st w st1 w1 fs Hf.
    destruct (driver_fields_resolved mapped iterate T name _ _ _ _ _ Hf)
      as (d & Hq & Hall).
    exists d. split; [exact Hq|].
    eapply Forall2_impl; [exact Hall|].
    intros column [key fd] Hs Ht. exact (Hdriver mapped column key fd Hs Ht).
  - intros iterate T name st w st1 w1 fs Hf.
    destruct (client_fields_resolved mapped iterate T name _ _ _ _ _ Hf)
      as (d & Hq & Hall).
    exists d. split; [exact Hq|].
    eapply Forall2_impl; [exact Hall|].
    intros column [key fd] Hs Ht. exact (Hclient column key fd Hs Ht).
Qed.

Lemma C5_boolean_default_witness :
  (exists key fd,
     Driver.fields_step sample_mapped (mk_column "active" "tinyint(1)" "YES" VNull)
       = Some (key, fd)
     /\ d_default fd = VNull)
  /\ (exists key fd,
        Client.fields_step sample_mapped
          (mk_column "active" "tinyint(1)" "YES" (VStr "1")) = Some (key, fd)
        /\ d_default fd = VBool true)
  /\ (exists key fd,
        Client.fields_step sample_mapped
          (mk_column "inactive" "tinyint(1)" "YES" (VStr "0")) = Some (key, fd)
        /\ d_default fd = VBool false)
  /\ exists fs,
       snd (Driver.fields sample_mapped sample_iterate gallery_server
              "gallery" (Driver.constructor sample_options) empty_world)
         = Resolved fs
       /\ (d_default <$> (snd <$> fs) !! 2) = Some (VBool true)
       /\ (d_default <$> (snd <$> fs) !! 3) = Some (VBool false).
Proof.
  destruct (C5_boolean_default sample_mapped) as (Hd & Hc & _ & _).
  split; [|split; [|split]].
  - eexists. eexists. split; [reflexivity|].
    exact (Hd sample_mapped (mk_column "active" "tinyint(1)" "YES" VNull)
             _ _ eq_refl eq_refl).
  - eexists. eexists. split; [reflexivity|].
    exact (proj1 (proj2 (Hc (mk_column "active" "tinyint(1)" "YES" (VStr "1"))
                           _ _ eq_refl eq_refl)) eq_refl).
  - eexists. eexists. split; [reflexivity|].
    refine (proj2 (proj2 (Hc (mk_column "inactive" "tinyint(1)" "YES" (VStr "0"))
                            _ _ eq_refl eq_refl)) _).
    discriminate.
  - eexists. repeat split; reflexivity.
Defined.

(** ** Value conversion *)

(** C8.  Converting null toStorage yields the literal [NULL] for every
    logical type and every conversion table, so also for a type that the
    table does not hold. *)
Theorem C8_null_toStorage (tbl : ConversionTable) (logicalType : string) :
  convert tbl toStorage logicalType VNull = VStr "NULL".
Proof. reflexivity. Qed.

(** The documented conversions of booleans, and the fallbacks. *)
Example convert_documented :
  convert documented_table toStorage "boolean" (VBool true) = VStr "TRUE"
  /\ convert documented_table toStorage "boolean" (VBool false) = VStr "FALSE"
  /\ convert documented_table toStorage "_undefined_" VNull = VStr "NULL"
  /\ convert documented_table fromStorage "boolean" (VNum (Num 1)) = VBool true
  /\ convert documented_table fromStorage "boolean" (VNum (Num 0)) = VBool false
  /\ convert documented_table fromStorage "_undefined_" (VNum (Num 123))
     = VNum (Num 123).
Proof. repeat split. Qed.

(** * Further properties of the adapter *)

(** ** Connecting without a database name *)

Section NoDatabase.

Variable T : Transport.

Lemma client_connect_no_database (st : Client.MySql) (w : World) :
  Client._client st = None ->
  truthy_str (database (Client._config st)) = false ->
  Client.connect T st w = (st, w, Rejected no_database_error).
Proof.
  intros Hc Hdb. unfold Client.connect, Client.connect_call, Client.config.
  now rewrite Hc, Hdb.
Qed.

(** X1.  An adapter without a cached handle whose configuration has no
    database name, or the empty text as database name, cannot connect:
    [connect()] rejects with the configuration error on every call, and
    neither creates a connection object nor changes the adapter; [query] and
    [fields] then stay pending, without any transport call either.  The
    second version rejects in the same way. *)
Theorem X1_connect_needs_database (o : Options) (w : World) :
  opt_client o = None ->
  opt_database o = None \/ opt_database o = Some EmptyString ->
  (forall n,
     Client.connect_times T n (Client.constructor o) w
     = (Client.constructor o, w, repeat (Rejected no_database_error) n))
  /\ (forall sql,
        Client.query T sql (Client.constructor o) w
        = (Client.constructor o, w, Pending))
  /\ (forall mapped iterate name,
        Client.fields mapped iterate T name (Client.constructor o) w
        = (Client.constructor o, w, Pending))
  /\ Driver.connect T (Driver.constructor o) w
     = (Driver.constructor o, w, Rejected no_database_error).
Proof.
  intros Hc Hdb.
  assert (Hconn : Client.connect T (Client.constructor o) w
                  = (Client.constructor o, w, Rejected no_database_error)).
  { apply client_connect_no_database; simpl; [exact Hc|].
    now destruct Hdb as [-> | ->]. }
  assert (Hq : forall sql,
             Client.query T sql (Client.constructor o) w
             = (Client.constructor o, w, Pending)).
  { intros sql. unfold Client.query. now rewrite Hconn. }
  split; [|split; [exact Hq|split]].
  - intros n. induction n as [|n IH]; [reflexivity|].
    cbn [Client.connect_times repeat]. now rewrite Hconn, IH.
  - intros mapped iterate name. unfold Client.fields. now rewrite Hq.
  - unfold Driver.connect, Driver.connect_call, Driver.config. simpl.
    rewrite Hc. now destruct Hdb as [-> | ->].
Qed.

End NoDatabase.

Lemma X1_connect_needs_database_witness :
  Client.connect_times good_server 2 (Client.constructor no_options)
    empty_world
  = (Client.constructor no_options, empty_world,
     [Rejected no_database_error; Rejected no_database_error])
  /\ Client.query good_server "SELECT 1" (Client.constructor no_options)
       empty_world
     = (Client.constructor no_options, empty_world, Pending).
Proof.
  destruct (X1_connect_needs_database good_server no_options empty_world
              eq_refl (or_introl eq_refl)) as (Hn & Hq & _).
  split; [exact (Hn 2)|exact (Hq "SELECT 1")].
Defined.

(** ** Disconnecting *)

(** X2.  [disconnect()] always answers [true].  Without a cached handle it
    does nothing at all; with one it calls [end()] on that handle, once, and
    leaves the adapter without handle and not connected.  A second
    [disconnect()] right after is therefore without effect. *)
Theorem X2_disconnect_once (st : Client.MySql) (w : World) :
  snd (Client.disconnect st w) = true
  /\ (Client._client st = None -> Client.disconnect st w = (st, w, true))
  /\ (forall h,
        Client._client st = Some h ->
        exists st1,
          Client.disconnect st w = (st1, call (EvEnd h) w, true)
          /\ Client.client st1 = None
          /\ Client.connected st1 = false)
  /\ (let '(st1, w1, _) := Client.disconnect st w in
      Client.disconnect st1 w1 = (st1, w1, true)).
Proof.
  unfold Client.disconnect.
  destruct (Client._client st) as [h|] eqn:Hc.
  - split; [reflexivity|]. split; [discriminate|]. split.
    + intros h' [= <-]. eexists. split; [reflexivity|]. now split.
    + reflexivity.
  - split; [reflexivity|]. split; [reflexivity|]. split; [discriminate|].
    now rewrite Hc.
Qed.

Lemma X2_disconnect_once_witness :
  let '(st, w, _) :=
    Client.connect good_server (Client.constructor sample_options)
      empty_world in
  exists st1,
    Client.disconnect st w = (st1, call (EvEnd 0) w, true)
    /\ Client.client st1 = None
    /\ Client.connected st1 = false.
Proof.
  exact (proj1 (proj2 (proj2
    (X2_disconnect_once
       (fst (fst (Client.connect good_server
                    (Client.constructor sample_options) empty_world)))
       (snd (fst (Client.connect good_server
                    (Client.constructor sample_options) empty_world))))))
    0 eq_refl).
Defined.

(** ** What [query] sends *)

Section QuerySends.

Variable T : Transport.

Lemma query_on_cached (sql : string) (st : Client.MySql) (w : World)
  (h : handle) :
  Client._client st = Some h ->
  let '(st1, w1, _) := Client.query T sql st w in
  log w1 = log w ++ [EvQuery h sql]
  /\ next_handle w1 = next_handle w
  /\ Client._client st1 = Some h
  /\ Client._connected st1 = Client._connected st.
Proof.
  intros Hc.
  rewrite (query_connected T sql st st w w h (connect_cached T st w h Hc)).
  destruct (on_query T h (log w) sql) as [err data].
  unfold Client.query_callback.
  destruct err; [now repeat split|].
  destruct (if data_truthy data then data_insertId data else None);
    now repeat split.
Qed.

(** X3.  [query] connects lazily and sends the statement as it is.  On an
    adapter with a cached handle it makes one transport call, [query] with
    the given text on that handle, and leaves handle and flag alone.  On an
    adapter without handle (with a database name, the transport accepting)
    it first creates a connection with the adapter's configuration and
    connects it, then sends the text on the new handle, which it keeps. *)
Theorem X3_query_sends_verbatim (sql : string) (st : Client.MySql)
  (w : World) :
  (forall h,
     Client._client st = Some h ->
     let '(st1, w1, _) := Client.query T sql st w in
     log w1 = log w ++ [EvQuery h sql]
     /\ next_handle w1 = next_handle w
     /\ Client._client st1 = Some h
     /\ Client._connected st1 = Client._connected st)
  /\ (Client._client st = None ->
      truthy_str (database (Client._config st)) = true ->
      on_connect T (next_handle w) = None ->
      let h := next_handle w in
      let '(st1, w1, _) := Client.query T sql st w in
      log w1 = log w ++ [EvCreate (Client._config st) h; EvConnect h;
                         EvQuery h sql]
      /\ Client._client st1 = Some h
      /\ Client._connected st1 = true).
Proof.
  split.
  - intros h Hc. now apply query_on_cached.
  - intros Hc Hdb Hok.
    assert (Hconn : Client.connect T st w
                    = (Client.set_connected true
                         (Client.set_client (Some (next_handle w)) st),
                       call (EvConnect (next_handle w))
                         (snd (createConnection (Client._config st) w)),
                       Resolved (next_handle w))).
    { unfold Client.connect. rewrite (connect_opens st w Hc Hdb).
      unfold Client.connect_callback. now rewrite Hok. }
    rewrite (query_connected T sql _ _ _ _ _ Hconn).
    destruct (on_query T (next_handle w) _ sql) as [err data].
    unfold Client.query_callback.
    destruct err;
      [|destruct (if data_truthy data then data_insertId data else None)];
      simpl; rewrite <- !app_assoc; now repeat split.
Qed.

End QuerySends.

Lemma X3_query_sends_verbatim_witness :
  let st0 := Client.constructor sample_options in
  log (snd (fst (Client.query good_server "SELECT 1" st0 empty_world)))
  = [EvCreate (Client._config st0) 0; EvConnect 0; EvQuery 0 "SELECT 1"]
  /\ log (snd (Client.run good_server
                 [Client.Connect; Client.Query "SELECT 2"] st0 empty_world))
     = [EvCreate (Client._config st0) 0; EvConnect 0; EvQuery 0 "SELECT 2"].
Proof.
  intros st0. split.
  - pose proof (proj2 (X3_query_sends_verbatim good_server "SELECT 1" st0
                         empty_world) eq_refl eq_refl eq_refl) as H.
    cbv zeta in H.
    destruct (Client.query good_server "SELECT 1" st0 empty_world)
      as [[st1 w1] p].
    exact (proj1 H).
  - reflexivity.
Defined.

(** ** What a sequence of calls keeps *)

Lemma use_after_end_nil : ~ use_after_end [].
Proof. intros (l1 & l2 & e & Heq & _). now destruct l1. Qed.

Lemma use_after_end_snoc (l : list event) (e : event) :
  ~ use_after_end l ->
  ~ In (EvEnd (event_handle e)) l ->
  ~ use_after_end (l ++ [e]).
Proof.
  intros Hl He (l1 & l2 & e' & Heq & Hin).
  destruct l2 as [|x l2 _] using rev_ind; [destruct Hin|].
  rewrite app_comm_cons, app_assoc in Heq.
  apply app_inj_tail in Heq as [Heq <-].
  apply in_app_or in Hin as [Hin|[<-|[]]].
  - apply Hl. now exists l1, l2, e'.
  - apply He. rewrite Heq. apply in_elt.
Qed.

Section Runs.

Variable T : Transport.

Lemma connect_change (st : Client.MySql) (w : World) :
  change st w (fst (fst (Client.connect T st w)))
    (snd (fst (Client.connect T st w))).
Proof.
  unfold Client.connect, Client.connect_call, Client.connect_callback,
    Client.config.
  destruct (Client._client st) as [h|] eqn:Hc; [constructor|].
  destruct (negb _); [constructor|]. simpl.
  destruct (on_connect T (next_handle w)); simpl;
    now apply change_open.
Qed.

Lemma disconnect_change (st : Client.MySql) (w : World) :
  change st w (fst (fst (Client.disconnect st w)))
    (snd (fst (Client.disconnect st w))).
Proof.
  unfold Client.disconnect.
  destruct (Client._client st) as [h|] eqn:Hc; [|constructor].
  now apply change_end.
Qed.

Lemma tidy_change (st st1 : Client.MySql) (w w1 : World) :
  change st w st1 w1 -> tidy st w -> tidy st1 w1.
Proof.
  intros Hch (Hev & Hcl & Hue).
  destruct Hch as [|st1 Hc Hc1 Hcfg|st1 h sql Hc Hc1 Hfl Hcfg
                   |st1 h Hc Hc1 Hfl Hcfg].
  - exact (conj Hev (conj Hcl Hue)).
  - assert (Hfresh : forall l,
              (forall e, In e l -> e = EvCreate (Client._config st)
                                         (next_handle w)
                                   \/ e = EvConnect (next_handle w)) ->
              ~ In (EvEnd (next_handle w)) (log w ++ l)).
    { intros l Hl [Hin|Hin]%in_app_or.
      - apply Hev in Hin. unfold allocated in Hin. simpl in Hin. lia.
      - now destruct (Hl _ Hin). }
    split; [|split].
    + intros e. unfold allocated. simpl.
      rewrite !in_app_iff. intros [[Hin|[<-|[]]]|[<-|[]]]; simpl; try lia.
      apply Hev in Hin. unfold allocated in Hin. lia.
    + intros h. rewrite Hc1. intros [= <-]. split.
      * unfold allocated. simpl. lia.
      * simpl. rewrite <- app_assoc. apply Hfresh.
        intros e [<-|[<-|[]]]; auto.
    + simpl. apply use_after_end_snoc; [apply use_after_end_snoc|].
      * exact Hue.
      * simpl. rewrite <- (app_nil_r (log w)). apply Hfresh. now intros e [].
      * simpl. apply Hfresh. intros e [<-|[]]. auto.
  - destruct (Hcl h Hc) as [Hal Hne]. split; [|split].
    + intros e. simpl. rewrite in_app_iff. intros [Hin|[<-|[]]];
        [now apply Hev|exact Hal].
    + intros h'. rewrite Hc1. intros [= <-]. split; [exact Hal|].
      simpl. rewrite in_app_iff. now intros [Hin|[Hin|[]]].
    + simpl. now apply use_after_end_snoc.
  - destruct (Hcl h Hc) as [Hal Hne]. split; [|split].
    + intros e. simpl. rewrite in_app_iff. intros [Hin|[<-|[]]];
        [now apply Hev|exact Hal].
    + intros h'. now rewrite Hc1.
    + simpl. now apply use_after_end_snoc.
Qed.

Lemma accounted_change (l0 : list event) (st st1 : Client.MySql)
  (w w1 : World) :
  change st w st1 w1 -> accounted l0 st w -> accounted l0 st1 w1.
Proof.
  intros Hch Hacc.
  destruct Hch as [|st1 Hc Hc1 Hcfg|st1 h sql Hc Hc1 Hfl Hcfg
                   |st1 h Hc Hc1 Hfl Hcfg]; [exact Hacc| | |];
    intros cfg h'; simpl; rewrite ?in_app_iff; rewrite Hcfg, Hc1.
  - intros [[Hin|[[= <- <-]|[]]]|[[=]|[]]].
    + destruct (Hacc cfg h' Hin) as [Hold|[-> [Hend|Hcached]]].
      * now left.
      * right. split; [reflexivity|]. left. left. now left.
      * congruence.
    + right. split; [reflexivity|]. now right.
  - intros [Hin|[[=]|[]]].
    destruct (Hacc cfg h' Hin) as [Hold|[-> [Hend|Hcached]]].
    + now left.
    + right. split; [reflexivity|]. left. now left.
    + right. split; [reflexivity|]. right. congruence.
  - intros [Hin|[[=]|[]]].
    destruct (Hacc cfg h' Hin) as [Hold|[-> [Hend|Hcached]]].
    + now left.
    + right. split; [reflexivity|]. left. now left.
    + right. split; [reflexivity|]. left. right. left. congruence.
Qed.

(** A call of a run is at most two changes in a row. *)
Lemma step_change (o : Client.op) (st : Client.MySql) (w : World) :
  exists st1 w1,
    change st w st1 w1
    /\ change st1 w1 (fst (Client.step T o st w)) (snd (Client.step T o st w)).
Proof.
  pose proof (connect_change st w) as Hconn.
  destruct o as [| |sql]; simpl.
  - exists st, w. split; [constructor|].
    now destruct (Client.connect T st w) as [[st1 w1] p].
  - exists st, w. split; [constructor|].
    pose proof (disconnect_change st w) as Hd.
    now destruct (Client.disconnect st w) as [[st1 w1] p].
  - unfold Client.query.
    destruct (Client.connect T st w) as [[st1 w1] p]. simpl in Hconn.
    exists st1, w1. split; [exact Hconn|].
    destruct p as [|h|r]; try constructor.
    destruct (Client._client st1) as [h1|] eqn:Hc1; [|constructor].
    destruct (on_query T h1 (log w1) sql) as [err data].
    unfold Client.query_callback.
    destruct err;
      [|destruct (if data_truthy data then data_insertId data else None)];
      simpl; now apply change_query.
Qed.

Lemma run_keeps (P : Client.MySql -> World -> Prop) :
  (forall st w st1 w1, change st w st1 w1 -> P st w -> P st1 w1) ->
  forall ops st w,
    P st w -> P (fst (Client.run T ops st w)) (snd (Client.run T ops st w)).
Proof.
  intros Hkeep ops. induction ops as [|o ops IH]; intros st w HP; [exact HP|].
  simpl. destruct (step_change o st w) as (st1 & w1 & H1 & H2).
  destruct (Client.step T o st w) as [st2 w2]. simpl in H2.
  apply IH. eapply Hkeep; [exact H2|]. eapply Hkeep; [exact H1|exact HP].
Qed.

End Runs.

Lemma run_flag_config (T : Transport) (o : Options) (ops : list Client.op)
  (w : World) :
  let st := fst (Client.run T ops (Client.constructor o) w) in
  (Client.connected st = true -> is_Some (Client.client st))
  /\ Client.config st = merge_defaults o.
Proof.
  apply (run_keeps T
           (fun st _ =>
              (Client.connected st = true -> is_Some (Client.client st))
              /\ Client.config st = merge_defaults o)).
  - intros st0 w0 st1 w1 Hch [Hfl Hcfg].
    destruct Hch as [|st1 Hc Hc1 Hcfg1|st1 h sql Hc Hc1 Hfl1 Hcfg1
                     |st1 h Hc Hc1 Hfl1 Hcfg1];
      unfold Client.connected, Client.client, Client.config in *.
    + now split.
    + rewrite Hc1, Hcfg1. split; [eauto|exact Hcfg].
    + rewrite Hc1, Hcfg1. split; [eauto|exact Hcfg].
    + rewrite Hfl1, Hcfg1. split; [discriminate|exact Hcfg].
  - split; [discriminate|reflexivity].
Qed.

(** X4.  When every call is awaited before the next one is made (each of
    [connect], [disconnect] and [query] run to the end of its callbacks),
    [connected()] answers [true] only while a handle is cached, and the
    configuration stays the one merged at construction.  Awaiting matters:
    when [disconnect()] is called after [connect()] has returned and before
    the transport has answered, the callback of the accepted connection
    sets the flag afterwards, and [connected()] answers [true] with no
    handle cached. *)
Theorem X4_flag_needs_handle (T : Transport) :
  (forall o ops w,
     let st := fst (Client.run T ops (Client.constructor o) w) in
     (Client.connected st = true -> is_Some (Client.client st))
     /\ Client.config st = merge_defaults o)
  /\ (forall st w,
        Client._client st = None ->
        truthy_str (database (Client._config st)) = true ->
        exists st1 w1 h,
          Client.connect_call st w = (st1, w1, inr h)
          /\ (let '(st2, _, _) := Client.disconnect st1 w1 in
              let st3 := fst (Client.connect_callback None h st2) in
              Client.connected st3 = true /\ Client.client st3 = None)).
Proof.
  split; [intros o ops w; apply run_flag_config|].
  intros st w Hc Hdb. eexists. eexists. eexists.
  rewrite (connect_opens st w Hc Hdb). split; [reflexivity|].
  unfold Client.disconnect. simpl. now split.
Qed.

(** X5.  No connection is lost: along any sequence of calls on a new
    adapter, every connection object created by these calls was created with
    the adapter's configuration, and either [end()] has been called on it or
    it is the cached handle.  So at most one of them is open at a time. *)
Theorem X5_connections_accounted (T : Transport) (o : Options)
  (ops : list Client.op) (w : World) :
  let st' := fst (Client.run T ops (Client.constructor o) w) in
  let w' := snd (Client.run T ops (Client.constructor o) w) in
  (forall cfg h,
     In (EvCreate cfg h) (log w') ->
     ~ In (EvCreate cfg h) (log w) ->
     cfg = merge_defaults o
     /\ (In (EvEnd h) (log w') \/ Client.client st' = Some h))
  /\ (forall cfg1 h1 cfg2 h2,
        In (EvCreate cfg1 h1) (log w') -> ~ In (EvCreate cfg1 h1) (log w) ->
        In (EvCreate cfg2 h2) (log w') -> ~ In (EvCreate cfg2 h2) (log w) ->
        ~ In (EvEnd h1) (log w') -> ~ In (EvEnd h2) (log w') ->
        h1 = h2).
Proof.
  intros st' w'.
  assert (Hacc : accounted (log w) st' w').
  { apply (run_keeps T (accounted (log w)));
      [intros st w0 st1 w1; apply accounted_change|].
    intros cfg h Hin. now left. }
  assert (Hcfg : Client.config st' = merge_defaults o)
    by apply (run_flag_config T o ops w).
  assert (H1 : forall cfg h,
             In (EvCreate cfg h) (log w') ->
             ~ In (EvCreate cfg h) (log w) ->
             cfg = merge_defaults o
             /\ (In (EvEnd h) (log w') \/ Client.client st' = Some h)).
  { intros cfg h Hin Hnew.
    destruct (Hacc cfg h Hin) as [Hold|[-> Hrest]]; [now destruct Hnew|].
    split; [exact Hcfg|exact Hrest]. }
  split; [exact H1|].
  intros cfg1 h1 cfg2 h2 Hin1 Hnew1 Hin2 Hnew2 Hopen1 Hopen2.
  destruct (H1 _ _ Hin1 Hnew1) as [_ [Hend|Hc1]]; [now destruct Hopen1|].
  destruct (H1 _ _ Hin2 Hnew2) as [_ [Hend|Hc2]]; [now destruct Hopen2|].
  congruence.
Qed.

Lemma X5_connections_accounted_witness :
  let ops := [Client.Query "SELECT 1"; Client.Disconnect;
              Client.Query "SELECT 2"] in
  let st0 := Client.constructor sample_options in
  In (EvEnd 0) (log (snd (Client.run good_server ops st0 empty_world)))
  \/ Client.client (fst (Client.run good_server ops st0 empty_world)) = Some 0.
Proof.
  intros ops st0.
  refine (proj2 (proj1 (X5_connections_accounted good_server sample_options
                          ops empty_world) (Client._config st0) 0 _ _)).
  - vm_compute. auto.
  - simpl. auto.
Defined.

(** X6.  Nothing is used after its end: along any sequence of calls on a new
    adapter, started with an empty log and with the injected handle (if any)
    an existing object, no transport call is ever made on a connection after
    [end()] was called on it (in particular [end()] is called at most once
    on a connection), and the cached handle is never an ended one. *)
Theorem X6_no_use_after_end (T : Transport) (o : Options)
  (ops : list Client.op) (w : World) :
  log w = [] ->
  (forall h, opt_client o = Some h -> allocated w h) ->
  let st' := fst (Client.run T ops (Client.constructor o) w) in
  let w' := snd (Client.run T ops (Client.constructor o) w) in
  ~ use_after_end (log w')
  /\ (forall h, Client.client st' = Some h -> ~ In (EvEnd h) (log w')).
Proof.
  intros Hlog Hinj st' w'.
  assert (Ht : tidy st' w').
  { apply (run_keeps T tidy);
      [intros st w0 st1 w1; apply tidy_change|].
    split; [|split].
    - rewrite Hlog. now intros e [].
    - intros h Hc. split; [now apply Hinj|]. rewrite Hlog. now intros [].
    - rewrite Hlog. apply use_after_end_nil. }
  destruct Ht as (_ & Hcl & Hue). split; [exact Hue|].
  intros h Hc. now apply Hcl.
Qed.

Lemma X6_no_use_after_end_witness :
  ~ use_after_end
      (log (snd (Client.run good_server
                   [Client.Query "SELECT 1"; Client.Disconnect;
                    Client.Disconnect; Client.Query "SELECT 2"]
                   (Client.constructor sample_options) empty_world))).
Proof.
  apply (X6_no_use_after_end good_server sample_options _ empty_world).
  - reflexivity.
  - discriminate.
Defined.

Lemma X4_flag_needs_handle_witness :
  (let st := fst (Client.run good_server [Client.Query "SELECT 1"]
                    (Client.constructor sample_options) empty_world) in
   Client.connected st = true /\ is_Some (Client.client st))
  /\ exists st1 w1 h,
       Client.connect_call (Client.constructor sample_options) empty_world
       = (st1, w1, inr h)
       /\ (let '(st2, _, _) := Client.disconnect st1 w1 in
           let st3 := fst (Client.connect_callback None h st2) in
           Client.connected st3 = true /\ Client.client st3 = None).
Proof.
  destruct (X4_flag_needs_handle good_server) as [Hrun Hrace].
  split.
  - intros st. split; [reflexivity|].
    now apply (Hrun sample_options [Client.Query "SELECT 1"] empty_world).
  - exact (Hrace (Client.constructor sample_options) empty_world
             eq_refl eq_refl).
Defined.

(** ** More on the parse of a vendor type *)

Lemma span_spec (p : ascii -> bool) (s a b : string) :
  span p s = (a, b) ->
  s = a +:+ b /\ all_chars p a = true /\ stops p b = true.
Proof.
  revert a b. induction s as [|c s IH]; simpl; intros a b.
  - now intros [= <- <-].
  - destruct (p c) eqn:Hc.
    + destruct (span p s) as [a' b'] eqn:Hs. intros [= <- <-].
      destruct (IH a' b' eq_refl) as (-> & Ha & Hb).
      simpl. now rewrite Hc.
    + intros [= <- <-]. simpl. now rewrite Hc.
Qed.

Lemma type_match_None (s : string) :
  type_match s = None <-> no_word s = true.
Proof.
  unfold no_word. induction s as [|c s IH]; simpl; [tauto|].
  destruct (is_word c); simpl.
  - destruct (span is_word s). split; discriminate.
  - exact IH.
Qed.

Lemma type_match_skip (pre s : string) :
  no_word pre = true -> type_match (pre +:+ s) = type_match s.
Proof.
  unfold no_word. induction pre as [|c pre IH]; [reflexivity|].
  simpl. intros [Hc Hp]%andb_true_iff.
  change (String c pre +:+ s) with (String c (pre +:+ s)).
  cbn [type_match]. apply negb_true_iff in Hc. rewrite Hc. now apply IH.
Qed.

Lemma type_match_Some (s w : string) (g : option string) :
  type_match s = Some (w, g) ->
  exists pre rest,
    s = pre +:+ w +:+ rest /\ no_word pre = true /\ base_name w
    /\ stops is_word rest = true /\ g = paren_group rest.
Proof.
  induction s as [|c s IH]; [discriminate|].
  cbn [type_match]. destruct (is_word c) eqn:Hc.
  - destruct (span is_word (String c s)) as [a b] eqn:Hs.
    intros [= <- <-]. destruct (span_spec _ _ _ _ Hs) as (Heq & Ha & Hb).
    exists EmptyString, b. split; [exact Heq|]. split; [reflexivity|].
    split; [|now split]. split; [|exact Ha].
    intros ->. simpl in Hs. rewrite Hc in Hs.
    destruct (span is_word s); discriminate.
  - intros Hm. destruct (IH Hm) as (pre & rest & -> & Hpre & Hrest).
    exists (String c pre), rest. split; [reflexivity|].
    split; [|exact Hrest]. unfold no_word in *. simpl. now rewrite Hc.
Qed.

Lemma paren_group_Some (rest g : string) :
  paren_group rest = Some g ->
  exists rest',
    rest = "(" +:+ g +:+ ")" +:+ rest' /\ g <> EmptyString
    /\ all_chars is_digit_or_comma g = true.
Proof.
  unfold paren_group. destruct rest as [|c rest]; [discriminate|].
  destruct (Ascii.eqb_spec c "("); [subst c|].
  - destruct (span is_digit_or_comma rest) as [a b] eqn:Hs.
    destruct (span_spec _ _ _ _ Hs) as (-> & Ha & Hb).
    destruct a as [|x a]; [discriminate|].
    destruct b as [|y b]; [discriminate|].
    destruct (Ascii.eqb_spec y ")"); [subst y|].
    + intros [= <-]. exists b. split; [reflexivity|]. now split.
    + intros H. exfalso. revert H.
      destruct y as [[] [] [] [] [] [] [] []]; try discriminate.
      now destruct n.
  - intros H. exfalso. revert H.
    destruct c as [[] [] [] [] [] [] [] []]; try discriminate.
    now destruct n.
Qed.

Lemma split_comma_cons (n t : string) :
  all_chars is_digit n = true ->
  split_comma (n +:+ "," +:+ t) = n :: split_comma t.
Proof.
  intros Hn. induction n as [|c n IH]; simpl in *; [reflexivity|].
  apply andb_true_iff in Hn as [Hc Hn].
  change (String c (n +:+ "," +:+ t)) with (String c (n +:+ "," +:+ t)).
  now rewrite (is_digit_not_comma c Hc), (IH Hn).
Qed.

Lemma split_comma_nonempty (s : string) : split_comma s <> [].
Proof.
  destruct s as [|c s]; simpl; [discriminate|].
  destruct (Ascii.eqb c ","); [discriminate|].
  now destruct (split_comma s).
Qed.

(** The pieces of a text of digits and commas are runs of digits. *)
Lemma split_comma_group (g : string) :
  all_chars is_digit_or_comma g = true ->
  Forall (fun seg => all_chars is_digit seg = true) (split_comma g).
Proof.
  induction g as [|c g IH]; simpl.
  - intros _. now repeat constructor.
  - intros [Hc Hg]%andb_true_iff. specialize (IH Hg).
    destruct (Ascii.eqb c ",") eqn:Hcomma.
    + constructor; [reflexivity|exact IH].
    + unfold is_digit_or_comma in Hc. rewrite Hcomma, orb_false_r in Hc.
      destruct (split_comma g) as [|seg segs].
      * constructor; [|constructor]. simpl. now rewrite Hc.
      * inversion IH as [|? ? Hseg Hsegs]; subst.
        constructor; [|exact Hsegs]. simpl. now rewrite Hc, Hseg.
Qed.

Lemma digits_value_nonneg (s : string) (acc : Z) :
  (0 <= acc)%Z -> (0 <= digits_value acc s)%Z.
Proof.
  revert acc. induction s as [|c s IH]; simpl; intros acc Hacc; [exact Hacc|].
  apply IH. unfold digit_value. lia.
Qed.

Lemma to_double_shape (z : Z) :
  (0 <= z)%Z -> to_double z = Infinity \/ natural (to_double z).
Proof.
  intros Hz. unfold to_double.
  destruct (z <? 2 ^ 53)%Z; [right; now exists z|].
  cbv zeta.
  set (e := (Z.log2 z - 52)%Z).
  assert (Hp : (0 <= 2 ^ e)%Z) by now apply Z.pow_nonneg.
  assert (Hq : (0 <= z / 2 ^ e)%Z) by now apply Z_div_nonneg_nonneg.
  match goal with
  | |- context [if ?c then (_ + 1)%Z else _] => destruct c
  end;
    match goal with
    | |- context [(2 ^ 1024 <=? ?v)%Z] => destruct (2 ^ 1024 <=? v)%Z
    end;
    try (now left); right; (eexists; split; [reflexivity|]);
    apply Z.mul_nonneg_nonneg; lia.
Qed.

Lemma parseInt_run (seg : string) :
  all_chars is_digit seg = true ->
  (seg = EmptyString /\ parseInt seg = NaN)
  \/ (seg <> EmptyString
      /\ (parseInt seg = Infinity \/ natural (parseInt seg))).
Proof.
  intros Hseg. destruct seg as [|c seg]; [now left|]. right.
  split; [discriminate|].
  rewrite (parseInt_digits (String c seg)) by (split; [discriminate|exact Hseg]).
  apply to_double_shape. now apply digits_value_nonneg.
Qed.

Section MoreParser.

Variable mapped : Field -> string.

(** The parse of a text in which a base name is followed by a closed
    parenthesised part made of digits and commas. *)
Lemma parse_type_group (base g rest : string) :
  base_name base -> g <> EmptyString ->
  all_chars is_digit_or_comma g = true ->
  parse_type mapped (base +:+ "(" +:+ g +:+ ")" +:+ rest)
  = Some (parsed mapped base
            (VNum (parseInt (nth 0 (split_comma g) EmptyString)))
            (match nth_error (split_comma g) 1 with
             | Some l1 => if truthy (VStr l1) then Some (parseInt l1) else None
             | None => None
             end)).
Proof.
  intros Hb Hne Hg. unfold parse_type.
  rewrite (type_match_base base ("(" +:+ g +:+ ")" +:+ rest) Hb eq_refl).
  rewrite (paren_group_closed g rest Hne Hg).
  now rewrite (truthy_nonempty g Hne).
Qed.

(** X7.  The use type is the first run of word characters of the type
    text: what comes before it holds no word character and is skipped, and
    the run is taken whole.  So a text parses to the same object with or
    without such a prefix. *)
Theorem X7_use_is_first_word_run :
  (forall real f,
     Driver._column mapped real = Some f ->
     exists pre rest,
       real = pre +:+ field_use f +:+ rest /\ no_word pre = true
       /\ base_name (field_use f) /\ stops is_word rest = true)
  /\ (forall pre real,
        no_word pre = true ->
        Driver._column mapped (pre +:+ real) = Driver._column mapped real).
Proof.
  unfold Driver._column, parse_type. split.
  - intros real f.
    destruct (type_match real) as [[m1 m2]|] eqn:Hm; [|discriminate].
    destruct (type_match_Some real m1 m2 Hm)
      as (pre & rest & -> & Hpre & Hb & Hrest & _).
    intros Hf. exists pre, rest.
    assert (Huse : field_use f = m1).
    { destruct m2 as [g|]; [destruct (truthy (VStr g))|];
        now injection Hf as <-. }
    rewrite Huse. split; [reflexivity|]. split; [exact Hpre|].
    split; [exact Hb|exact Hrest].
  - intros pre real Hpre. now rewrite (type_match_skip pre real Hpre).
Qed.

(** X8.  [_field] and [_column] throw exactly on a type text without any
    word character (so on the empty text); any text with one parses.  The
    length of the parsed object is then undefined with no precision, or a
    number that is [NaN], a natural number or (for a run of digits beyond
    the range of a double) [Infinity]; a precision, when present, is a
    natural number or [Infinity], never [NaN], and comes with a number as
    length. *)
Theorem X8_parse_result_shape (real : string) :
  (Driver._column mapped real = None <-> no_word real = true)
  /\ (forall f,
        Driver._column mapped real = Some f ->
        (field_length f = VUndefined /\ field_precision f = None)
        \/ (exists n,
              field_length f = VNum n
              /\ (n = NaN \/ n = Infinity \/ natural n)
              /\ (forall p, field_precision f = Some p ->
                             p = Infinity \/ natural p))).
Proof.
  unfold Driver._column, parse_type. split.
  - rewrite <- type_match_None.
    destruct (type_match real) as [[m1 m2]|]; [|tauto].
    split; [|discriminate].
    destruct m2 as [g|]; [destruct (truthy (VStr g))|]; discriminate.
  - intros f. destruct (type_match real) as [[m1 m2]|] eqn:Hm; [|discriminate].
    destruct (type_match_Some real m1 m2 Hm)
      as (pre & rest & _ & _ & _ & _ & Hg).
    destruct m2 as [g|]; [|intros [= <-]; now left].
    destruct (paren_group_Some rest g (eq_sym Hg)) as (rest' & _ & Hne & Hall).
    rewrite (truthy_nonempty g Hne). intros [= <-]. right. simpl.
    pose proof (split_comma_group g Hall) as Hsegs.
    pose proof (split_comma_nonempty g) as Hnil.
    destruct (split_comma g) as [|seg0 segs]; [now destruct Hnil|].
    inversion Hsegs as [|? ? Hseg0 Hrest]; subst.
    eexists. split; [reflexivity|]. split.
    + simpl. destruct (parseInt_run seg0 Hseg0) as [[_ ->]|[_ Hn]]; auto.
    + simpl. destruct segs as [|seg1 segs]; [discriminate|].
      inversion Hrest as [|? ? Hseg1 _]; subst.
      destruct (parseInt_run seg1 Hseg1) as [[-> _]|[Hne1 Hn]].
      * discriminate.
      * pose proof (truthy_nonempty seg1 Hne1) as Ht. simpl in Ht.
        rewrite Ht. now intros p [= <-].
Qed.

(** X9.  After a base name, a length is read exactly when the name is
    directly followed by an opening parenthesis, at least one digit or
    comma, and a closing parenthesis.  An unclosed parenthesis, an empty
    pair, or a list of quoted values leave the length undefined. *)
Theorem X9_length_present_iff (base rest : string) :
  base_name base -> stops is_word rest = true ->
  exists f,
    Driver._column mapped (base +:+ rest) = Some f
    /\ field_use f = base
    /\ (field_length f <> VUndefined <->
        exists g rest',
          rest = "(" +:+ g +:+ ")" +:+ rest' /\ g <> EmptyString
          /\ all_chars is_digit_or_comma g = true).
Proof.
  intros Hb Hr. unfold Driver._column, parse_type.
  rewrite (type_match_base base rest Hb Hr).
  destruct (paren_group rest) as [g|] eqn:Hg.
  - destruct (paren_group_Some rest g Hg) as (rest' & Hrest & Hne & Hall).
    rewrite (truthy_nonempty g Hne). eexists. split; [reflexivity|].
    split; [reflexivity|]. simpl. split; [|discriminate].
    intros _. now exists g, rest'.
  - eexists. split; [reflexivity|]. split; [reflexivity|]. simpl.
    split; [now intros H|].
    intros (g & rest' & -> & Hne & Hall).
    rewrite (paren_group_closed g rest' Hne Hall) in Hg. discriminate.
Qed.

End MoreParser.

Lemma X7_use_is_first_word_run_witness :
  Driver._column sample_mapped "  `int(11) unsigned"
  = Driver._column sample_mapped "int(11) unsigned".
Proof.
  exact (proj2 (X7_use_is_first_word_run sample_mapped) "  `" "int(11) unsigned" eq_refl).
Defined.

Lemma X8_parse_result_shape_witness :
  Driver._column sample_mapped "" = None
  /\ Driver._column sample_mapped "()" = None
  /\ exists f,
       Driver._column sample_mapped "decimal(10,2)" = Some f
       /\ natural (Num 2).
Proof.
  split; [|split].
  - now apply (proj1 (X8_parse_result_shape sample_mapped "")).
  - now apply (proj1 (X8_parse_result_shape sample_mapped "()")).
  - eexists. split; [reflexivity|].
    destruct (proj2 (X8_parse_result_shape sample_mapped "decimal(10,2)")
                _ eq_refl) as [[H _]|(n & _ & _ & Hp)]; [discriminate H|].
    destruct (Hp (Num 2) eq_refl) as [H|H]; [discriminate H|exact H].
Defined.

Lemma X9_length_present_iff_witness :
  (exists f,
     Driver._column sample_mapped "enum('a','b')" = Some f
     /\ field_use f = "enum" /\ field_length f = VUndefined)
  /\ (exists f,
        Driver._column sample_mapped "varchar(12" = Some f
        /\ field_length f = VUndefined)
  /\ (exists f,
        Driver._column sample_mapped "int(11) unsigned" = Some f
        /\ field_length f <> VUndefined).
Proof.
  split; [|split].
  - destruct (X9_length_present_iff sample_mapped "enum" "('a','b')")
      as (f & Hf & Huse & _); [now split|reflexivity|].
    exists f. split; [exact Hf|]. split; [exact Huse|].
    injection Hf as <-. reflexivity.
  - destruct (X9_length_present_iff sample_mapped "varchar" "(12")
      as (f & Hf & _); [now split|reflexivity|].
    exists f. split; [exact Hf|]. injection Hf as <-. reflexivity.
  - destruct (X9_length_present_iff sample_mapped "int" "(11) unsigned")
      as (f & Hf & _ & Hiff); [now split|reflexivity|].
    exists f. split; [exact Hf|]. apply Hiff.
    exists "11", " unsigned". now repeat split.
Defined.

(** X10.  The numbers of the parenthesised part are read by position.  An
    empty first place gives the length [NaN] (the precision is still read);
    an empty second place gives no precision; places after the second are
    ignored.  The numbers read are the integers that the digits denote, for
    integers below 2^53. *)
Theorem X10_numbers_by_position (mapped : Field -> string)
  (base n m t rest : string) :
  base_name base -> digits n -> digits m -> small n -> small m ->
  all_chars is_digit_or_comma t = true ->
  Driver._column mapped (base +:+ "(" +:+ ("," +:+ m) +:+ ")" +:+ rest)
  = Some (parsed mapped base (VNum NaN) (Some (Num (digits_value 0 m))))
  /\ Driver._column mapped (base +:+ "(" +:+ (n +:+ ",") +:+ ")" +:+ rest)
     = Some (parsed mapped base (VNum (Num (digits_value 0 n))) None)
  /\ Driver._column mapped
       (base +:+ "(" +:+ (n +:+ "," +:+ m +:+ "," +:+ t) +:+ ")" +:+ rest)
     = Some (parsed mapped base (VNum (Num (digits_value 0 n)))
               (Some (Num (digits_value 0 m)))).
Proof.
  intros Hb [Hnn Hn] [Hmm Hm] Hsn Hsm Ht. unfold Driver._column.
  assert (Hcomma : forall x y,
            all_chars is_digit_or_comma x = true ->
            all_chars is_digit_or_comma y = true ->
            all_chars is_digit_or_comma (x +:+ "," +:+ y) = true).
  { intros x y Hx Hy. rewrite all_chars_app, Hx.
    change ("," +:+ y) with (String "," y). simpl. exact Hy. }
  split; [|split].
  - rewrite parse_type_group;
      [|exact Hb|discriminate
       |exact (Hcomma EmptyString m eq_refl (digits_group m Hm))].
    change (split_comma ("," +:+ m))
      with (split_comma (EmptyString +:+ "," +:+ m)).
    rewrite (split_comma_cons EmptyString m eq_refl),
      (split_comma_digits m Hm).
    cbn [nth nth_error].
    now rewrite (truthy_nonempty m Hmm), (parseInt_small m (conj Hmm Hm) Hsm).
  - rewrite parse_type_group;
      [|exact Hb|now destruct n
       |exact (Hcomma n EmptyString (digits_group n Hn) eq_refl)].
    change (split_comma (n +:+ ","))
      with (split_comma (n +:+ "," +:+ EmptyString)).
    rewrite (split_comma_cons n EmptyString Hn).
    cbn [split_comma nth nth_error].
    now rewrite (parseInt_small n (conj Hnn Hn) Hsn).
  - rewrite parse_type_group;
      [|exact Hb|now destruct n
       |exact (Hcomma n _ (digits_group n Hn)
                 (Hcomma m t (digits_group m Hm) Ht))].
    rewrite (split_comma_cons n _ Hn), (split_comma_cons m t Hm).
    cbn [nth nth_error].
    now rewrite (truthy_nonempty m Hmm), (parseInt_small n (conj Hnn Hn) Hsn),
      (parseInt_small m (conj Hmm Hm) Hsm).
Qed.

Lemma X10_numbers_by_position_witness :
  Driver._column sample_mapped "decimal(,2)"
  = Some (mkField "decimal" (VNum NaN) "decimal" (Some (Num 2)))
  /\ Driver._column sample_mapped "decimal(10,)"
     = Some (mkField "decimal" (VNum (Num 10)) "decimal" None)
  /\ Driver._column sample_mapped "decimal(10,2,5)"
     = Some (mkField "decimal" (VNum (Num 10)) "decimal" (Some (Num 2))).
Proof.
  apply (X10_numbers_by_position sample_mapped "decimal" "10" "2" "5" "");
    repeat split; discriminate.
Defined.

(** ** More on [fields] *)

Section MoreFields.

Variable mapped : Field -> string.

Lemma client_step_None (column : Row) :
  Client.fields_step mapped column = None <-> typed column = false.
Proof.
  unfold Client.fields_step, Client._field, typed.
  destruct (prop column "Type") as [| |b|n|real]; try tauto.
  pose proof (type_match_None real) as Hn. unfold parse_type.
  destruct (type_match real) as [[m1 m2]|].
  - destruct (no_word real); [discriminate (proj2 Hn eq_refl)|].
    split; [|discriminate].
    destruct m2 as [g|]; [destruct (truthy (VStr g))|]; discriminate.
  - rewrite (proj1 Hn eq_refl). tauto.
Qed.

Lemma client_loop_outcome (columns : list Row) :
  if forallb typed columns then
    exists fs, Client.fields_loop mapped columns = Some fs
               /\ length fs = length columns
  else Client.fields_loop mapped columns = None.
Proof.
  induction columns as [|column columns IH]; simpl; [now exists []|].
  pose proof (client_step_None column) as Hs.
  destruct (typed column); simpl.
  - destruct (Client.fields_step mapped column) as [tmp|];
      [|discriminate (proj1 Hs eq_refl)].
    destruct (forallb typed columns).
    + destruct IH as (fs & -> & Hlen). exists (tmp :: fs). simpl.
      now rewrite Hlen.
    + now rewrite IH.
  - now rewrite (proj2 Hs eq_refl).
Qed.

(** X11.  How [fields] ends, by how its [DESCRIBE] query ends.  When the
    query resolves with a cursor, [fields] resolves with one entry per row
    if every row has a type text with a word character, and rejects with a
    [TypeError] otherwise, without a partial list.  When the query resolves
    with [true] (an answer without rows) it rejects with a [TypeError]; when
    the query rejects it rejects with the same error; when the query stays
    pending so does it.  The adapter and the log are as the query left
    them. *)
Theorem X11_fields_outcome (iterate : Data -> list Row) (T : Transport)
  (name : string) (st st1 : Client.MySql) (w w1 : World)
  (q : Outcome QueryResult) :
  Client.query T ("DESCRIBE " +:+ name) st w = (st1, w1, q) ->
  exists p,
    Client.fields mapped iterate T name st w = (st1, w1, p)
    /\ match q with
       | Resolved (QCursor d) =>
           if forallb typed (iterate d) then
             exists fs, p = Resolved fs /\ length fs = length (iterate d)
           else p = Rejected TypeError
       | Resolved _ => p = Rejected TypeError
       | Rejected r => p = Rejected r
       | Pending => p = Pending
       end.
Proof.
  intros Hq. unfold Client.fields. rewrite Hq. eexists. split; [reflexivity|].
  destruct q as [|[|d|d]|r]; try reflexivity.
  pose proof (client_loop_outcome (iterate d)) as Hl.
  destruct (forallb typed (iterate d)).
  - destruct Hl as (fs & -> & Hlen). now exists fs.
  - now rewrite Hl.
Qed.

(** X12.  What [fields] resolves with: for each row of the cursor, in the
    order of the rows, one entry whose key is the row's [Field], whose
    [null] is true exactly when the row's [Null] is the text [YES], and
    whose type, use, length and precision are those [_field] parsed from the
    row. *)
Theorem X12_fields_content (iterate : Data -> list Row) (T : Transport)
  (name : string) (st st1 : Client.MySql) (w w1 : World)
  (fs : list (string * FieldDescriptor)) :
  Client.fields mapped iterate T name st w = (st1, w1, Resolved fs) ->
  exists d,
    Client.query T ("DESCRIBE " +:+ name) st w
      = (st1, w1, Resolved (QCursor d))
    /\ Forall2
         (fun column e =>
            fst e = to_key (prop column "Field")
            /\ d_null (snd e) = strict_eq (prop column "Null") (VStr "YES")
            /\ Client._field mapped column
               = Some (mkField (d_type (snd e)) (d_length (snd e))
                         (d_use (snd e)) (d_precision (snd e))))
         (iterate d) fs.
Proof.
  intros Hf.
  destruct (client_fields_resolved mapped iterate T name _ _ _ _ _ Hf)
    as (d & Hq & Hall).
  exists d. split; [exact Hq|].
  eapply Forall2_impl; [exact Hall|].
  intros column [key fd]. unfold Client.fields_step.
  destruct (Client._field mapped column) as [[ty len use prec]|];
    [|discriminate].
  intros [= <- <-]. simpl. split; [reflexivity|]. split; [|reflexivity].
  now destruct (strict_eq (prop column "Null") (VStr "YES")).
Qed.

(** X13.  A column whose logical type is neither boolean nor datetime keeps
    its raw default as it is, in both versions; and the second version
    treats the default of a datetime column as the first one does. *)
Theorem X13_other_defaults (column : Row) (key : string)
  (fd : FieldDescriptor) :
  (Client.fields_step mapped column = Some (key, fd) ->
   d_type fd <> "boolean" -> d_type fd <> "datetime" ->
   d_default fd = prop column "Default")
  /\ (Driver.fields_step mapped column = Some (key, fd) ->
      (d_type fd <> "boolean" -> d_type fd <> "datetime" ->
       d_default fd = prop column "Default")
      /\ (d_type fd = "datetime" ->
          d_default fd = spec_datetime_default (prop column "Default"))).
Proof.
  assert (Hne : forall s t : string, s <> t -> String.eqb s t = false)
    by (intros s t; apply String.eqb_neq).
  split.
  - intros Hs Hb Hd.
    now rewrite (client_step_default mapped column key fd Hs),
      (Hne _ _ Hb), (Hne _ _ Hd).
  - intros Hs. rewrite (driver_step_default mapped column key fd Hs). split.
    + intros Hb Hd. now rewrite (Hne _ _ Hb), (Hne _ _ Hd).
    + intros ->. apply datetime_default_spec.
Qed.

End MoreFields.

Lemma X11_fields_outcome_witness :
  (exists fs,
     snd (Client.fields sample_mapped sample_iterate gallery_server "gallery"
            (Client.constructor sample_options) empty_world) = Resolved fs
     /\ length fs = 6)
  /\ snd (Client.fields sample_mapped sample_iterate good_server "gallery"
            (Client.constructor no_options) empty_world) = Pending.
Proof.
  split.
  - destruct (X11_fields_outcome sample_mapped sample_iterate gallery_server
                "gallery" (Client.constructor sample_options) _ empty_world
                _ _ eq_refl) as (p & -> & fs & -> & Hlen).
    now exists fs.
  - destruct (X11_fields_outcome sample_mapped sample_iterate good_server
                "gallery" (Client.constructor no_options) _ empty_world
                _ _ eq_refl) as (p & -> & ->).
    reflexivity.
Defined.

Lemma X12_fields_content_witness :
  exists fs d,
    snd (Client.fields sample_mapped sample_iterate gallery_server "gallery"
           (Client.constructor sample_options) empty_world) = Resolved fs
    /\ snd (Client.query gallery_server ("DESCRIBE " +:+ "gallery")
              (Client.constructor sample_options) empty_world)
       = Resolved (QCursor d)
    /\ fst <$> fs = ["id"; "name"; "active"; "inactive"; "money"; "created"].
Proof.
  destruct (X12_fields_content sample_mapped sample_iterate gallery_server
              "gallery" (Client.constructor sample_options) _ empty_world
              _ _ eq_refl) as (d & Hq & _).
  eexists. exists d. split; [reflexivity|]. split; [|reflexivity].
  now rewrite Hq.
Defined.

Lemma X13_other_defaults_witness :
  exists key fd,
    Client.fields_step sample_mapped
      (mk_column "name" "varchar(128)" "YES" (VStr "Johnny Boy"))
    = Some (key, fd)
    /\ d_default fd = VStr "Johnny Boy".
Proof.
  eexists. eexists. split; [reflexivity|].
  apply (proj1 (X13_other_defaults sample_mapped
                  (mk_column "name" "varchar(128)" "YES" (VStr "Johnny Boy"))
                  _ _) eq_refl); discriminate.
Defined.

(** ** The second version *)

Section DriverVersion.

Variable T : Transport.

Lemma driver_connect_lastInsertId (st : Driver.MySql) (w : World) :
  Driver._lastInsertId (fst (fst (Driver.driver T st w)))
  = Driver._lastInsertId st.
Proof.
  unfold Driver.driver, Driver.connect, Driver.connect_call,
    Driver.connect_callback.
  destruct (Driver._driver st); [reflexivity|].
  destruct (negb _); [reflexivity|]. simpl.
  now destruct (on_connect T (next_handle w)).
Qed.

(** X14.  In the second version a [query] that the transport answers
    without error resolves with a cursor over whatever data came, also over
    the result object of a mutation, and with the data itself when there is
    none; it never resolves with [true].  It overwrites the recorded
    identifier with the [insertId] of the data, so an answer made of rows
    resets [lastInsertId()] to undefined. *)
Theorem X14_driver_query_outcome (sql : string) (st : Driver.MySql)
  (w : World) :
  (forall st1 w1 h data,
     Driver.driver T st w = (st1, w1, Resolved h) ->
     on_query T h (log w1) sql = (None, data) ->
     exists st2,
       Driver.query T sql st w =
         (st2, call (EvQuery h sql) w1,
          Resolved (if data_truthy data then QCursor data else QData data))
       /\ Driver.lastInsertId st2 =
            (if data_truthy data then data_insertId data
             else Driver.lastInsertId st)
       /\ (forall rows, data = DRows rows -> Driver.lastInsertId st2 = None))
  /\ snd (Driver.query T sql st w) <> Resolved QTrue.
Proof.
  split.
  - intros st1 w1 h data Hconn Hq.
    pose proof (driver_connect_lastInsertId st w) as Hl.
    rewrite Hconn in Hl. simpl in Hl.
    unfold Driver.query.
    rewrite Hconn, (driver_resolved T _ _ _ _ _ Hconn), Hq.
    unfold Driver.query_callback, Driver.lastInsertId.
    destruct data as [|rows|i]; simpl; eexists;
      (split; [reflexivity|]); simpl;
      (split; [first [reflexivity | exact Hl]|]); intros rows'; try discriminate.
    reflexivity.
  - unfold Driver.query.
    destruct (Driver.driver T st w) as [[st1 w1] [|h|r]]; try discriminate.
    destruct (Driver._driver st1) as [h1|]; [|discriminate].
    destruct (on_query T h1 (log w1) sql) as [err data].
    unfold Driver.query_callback.
    destruct err, (data_truthy data); discriminate.
Qed.

(** X15.  In the second version the callback of a refused connection calls
    [reject] and then [accept]; the first call wins, so [connect()] rejects
    with the message that holds the error code and stack.  The handle
    created for the attempt is cached before the answer: from the moment
    [connect()] has been called [connected()] answers [true], it still does
    after the refusal, and the next [connect()] resolves with that handle
    without a transport call. *)
Theorem X15_driver_failed_connect (st : Driver.MySql) (w : World)
  (e : NativeError) :
  Driver._driver st = None ->
  truthy_str (database (Driver._config st)) = true ->
  on_connect T (next_handle w) = Some e ->
  (exists st0 w0,
     Driver.connect_call st w = (st0, w0, inr (next_handle w))
     /\ Driver.connected st0 = true)
  /\ exists st1 w1,
       Driver.connect T st w =
         (st1, w1,
          Rejected (NewError ("Unable to connect to host , error "
                              +:+ code e +:+ " " +:+ stack e)))
       /\ log w1 = log w ++ [EvCreate (Driver._config st) (next_handle w);
                             EvConnect (next_handle w)]
       /\ Driver.connected st1 = true
       /\ Driver.connect T st1 w1 = (st1, w1, Resolved (next_handle w)).
Proof.
  intros Hd Hdb He.
  unfold Driver.connect, Driver.connect_call, Driver.config.
  rewrite Hd, Hdb. simpl. rewrite He. simpl. split.
  - eexists. eexists. split; reflexivity.
  - eexists. eexists. split; [reflexivity|]. simpl.
    rewrite <- app_assoc. split; [reflexivity|]. split; reflexivity.
Qed.

(** X16.  The life cycle of the second version.  With a cached handle
    [connect()] resolves with it and touches nothing.  [disconnect()] always
    answers [true]; without a handle it does nothing, with one it calls
    [end()] on it once and forgets it, after which [connected()] answers
    [false]; it never changes the recorded identifier or the
    configuration. *)
Theorem X16_driver_life_cycle (st : Driver.MySql) (w : World) :
  (forall h,
     Driver._driver st = Some h ->
     Driver.connect T st w = (st, w, Resolved h)
     /\ Driver.disconnect st w = (Driver.set_driver None st,
                                  call (EvEnd h) w, true))
  /\ (Driver._driver st = None -> Driver.disconnect st w = (st, w, true))
  /\ (let '(st1, w1, r) := Driver.disconnect st w in
      r = true
      /\ Driver.connected st1 = false
      /\ Driver.lastInsertId st1 = Driver.lastInsertId st
      /\ Driver.config st1 = Driver.config st
      /\ Driver.disconnect st1 w1 = (st1, w1, true)).
Proof.
  unfold Driver.connect, Driver.connect_call, Driver.disconnect,
    Driver.connected.
  destruct (Driver._driver st) as [h|] eqn:Hd.
  - split; [|split; [discriminate|now repeat split]].
    intros h' [= <-]. now split.
  - split; [discriminate|]. split; [reflexivity|].
    rewrite Hd. now repeat split.
Qed.

(** X17.  [describe] introspects only when it is called with the name
    alone: then it ends as [fields] ends, and the schema is built from the
    list that [fields] resolved with.  Called with any other number of
    arguments it makes no transport call, leaves the adapter alone and
    resolves with a schema built from the [fields] argument as given, even
    an undefined one. *)
Theorem X17_describe_introspects_once {F M S : Type}
  (schema : Driver.SchemaConfig F M -> S) (mapped : Field -> string)
  (iterate : Data -> list Row) (nbargs : nat) (name : string) (fields0 : F)
  (meta : M) (st : Driver.MySql) (w : World) :
  (nbargs <> 1 ->
   Driver.describe schema mapped iterate T nbargs name fields0 meta st w
   = (st, w,
      Resolved (schema (Driver.mkSchemaConfig name (inr fields0) meta))))
  /\ (nbargs = 1 ->
      forall st1 w1 p,
        Driver.fields mapped iterate T name st w = (st1, w1, p) ->
        exists q,
          Driver.describe schema mapped iterate T nbargs name fields0 meta
            st w = (st1, w1, q)
          /\ (forall fs,
                p = Resolved fs ->
                q = Resolved
                      (schema (Driver.mkSchemaConfig name (inl fs) meta)))
          /\ (forall r, p = Rejected r <-> q = Rejected r)
          /\ (p = Pending <-> q = Pending)).
Proof.
  unfold Driver.describe. split.
  - intros Hn. now rewrite (proj2 (Nat.eqb_neq nbargs 1) Hn).
  - intros -> st1 w1 p Hf. rewrite Hf. simpl. eexists.
    split; [reflexivity|].
    destruct p as [|fs|r]; repeat split; try discriminate; congruence.
Qed.

End DriverVersion.

Lemma X14_driver_query_outcome_witness :
  snd (Driver.query gallery_server "SELECT 1"
         (Driver.constructor sample_options) empty_world)
  = Resolved (QCursor (DRows []))
  /\ snd (Driver.query good_server "INSERT INTO gallery"
            (Driver.constructor sample_options) empty_world)
     = Resolved (QCursor (DPacket (Some 1%Z))).
Proof.
  split.
  - destruct (proj1 (X14_driver_query_outcome gallery_server "SELECT 1"
                       (Driver.constructor sample_options) empty_world)
                _ _ 0 _ eq_refl eq_refl) as (st2 & -> & _).
    reflexivity.
  - destruct (proj1 (X14_driver_query_outcome good_server
                       "INSERT INTO gallery"
                       (Driver.constructor sample_options) empty_world)
                _ _ 0 _ eq_refl eq_refl) as (st2 & -> & _).
    reflexivity.
Defined.

Lemma X15_driver_failed_connect_witness :
  exists st1 w1,
    Driver.connect no_server (Driver.constructor unreachable_options)
      empty_world =
      (st1, w1,
       Rejected (NewError "Unable to connect to host , error ENOTFOUND Error: getaddrinfo ENOTFOUND hostlocal"))
    /\ Driver.connected st1 = true
    /\ Driver.connect no_server st1 w1 = (st1, w1, Resolved 0).
Proof.
  destruct (X15_driver_failed_connect no_server
              (Driver.constructor unreachable_options) empty_world enotfound
              eq_refl eq_refl eq_refl)
    as (_ & st1 & w1 & H1 & _ & H2 & H3).
  exists st1, w1. repeat split; assumption.
Defined.

Lemma X16_driver_life_cycle_witness :
  let st := fst (fst (Driver.connect good_server
                        (Driver.constructor sample_options) empty_world)) in
  let w := snd (fst (Driver.connect good_server
                       (Driver.constructor sample_options) empty_world)) in
  Driver.connect good_server st w = (st, w, Resolved 0)
  /\ Driver.disconnect st w
     = (Driver.set_driver None st, call (EvEnd 0) w, true).
Proof.
  intros st w.
  exact (proj1 (X16_driver_life_cycle good_server st w) 0 eq_refl).
Defined.

Lemma X17_describe_introspects_once_witness :
  Driver.describe (fun c => c) sample_mapped sample_iterate no_server 3
    "gallery" [("id", "serial")] tt
    (Driver.constructor unreachable_options) empty_world
  = (Driver.constructor unreachable_options, empty_world,
     Resolved (Driver.mkSchemaConfig "gallery" (inr [("id", "serial")]) tt))
  /\ snd (Driver.describe (fun c : Driver.SchemaConfig unit unit => c)
            sample_mapped sample_iterate no_server 1 "gallery" tt tt
            (Driver.constructor unreachable_options) empty_world)
     = Pending.
Proof.
  split.
  - apply (proj1 (X17_describe_introspects_once no_server
                    (fun c : Driver.SchemaConfig (list (string * string)) unit
                     => c)
                    sample_mapped sample_iterate 3 "gallery"
                    [("id", "serial")] tt
                    (Driver.constructor unreachable_options) empty_world)).
    discriminate.
  - destruct (proj2 (X17_describe_introspects_once no_server
                       (fun c : Driver.SchemaConfig unit unit => c)
                       sample_mapped sample_iterate 1 "gallery" tt tt
                       (Driver.constructor unreachable_options) empty_world)
                eq_refl _ _ _ eq_refl) as (q & -> & _ & _ & Hp).
    exact (proj1 Hp eq_refl).
Defined.

(** ** An adapter around an injected handle *)

Section Injected.

Variable T : Transport.

Lemma injected_step (o : Client.op) (st : Client.MySql) (w : World)
  (h : handle) :
  o <> Client.Disconnect ->
  Client._client st = Some h -> Client._connected st = false ->
  let st1 := fst (Client.step T o st w) in
  let w1 := snd (Client.step T o st w) in
  Client._client st1 = Some h /\ Client._connected st1 = false
  /\ next_handle w1 = next_handle w
  /\ (log w1 = log w \/ exists sql, log w1 = log w ++ [EvQuery h sql]).
Proof.
  intros Ho Hc Hfl. destruct o as [| |sql]; [|now destruct Ho|]; simpl.
  - rewrite (connect_cached T st w h Hc). simpl. auto.
  - pose proof (query_on_cached T sql st w h Hc) as Hq.
    destruct (Client.query T sql st w) as [[st1 w1] p].
    destruct Hq as (Hlog & Hnext & Hc1 & Hfl1). simpl.
    rewrite Hfl1. eauto 10.
Qed.

(** X18.  An adapter built around an injected handle never opens a
    connection of its own as long as [disconnect()] is not called: whatever
    [connect] and [query] calls are made, the handle stays the injected one,
    the only transport calls are the queries on it, and [connected()] keeps
    answering [false]. *)
Theorem X18_injected_handle_only (o : Options) (h : handle)
  (ops : list Client.op) (w : World) :
  opt_client o = Some h ->
  Forall (fun op => op <> Client.Disconnect) ops ->
  let st' := fst (Client.run T ops (Client.constructor o) w) in
  let w' := snd (Client.run T ops (Client.constructor o) w) in
  Client.client st' = Some h
  /\ Client.connected st' = false
  /\ next_handle w' = next_handle w
  /\ exists l,
       log w' = log w ++ l
       /\ Forall (fun e => exists sql, e = EvQuery h sql) l.
Proof.
  intros Ho Hops.
  assert (Hgen : forall st w0,
            Client._client st = Some h -> Client._connected st = false ->
            let st' := fst (Client.run T ops st w0) in
            let w' := snd (Client.run T ops st w0) in
            Client._client st' = Some h /\ Client._connected st' = false
            /\ next_handle w' = next_handle w0
            /\ exists l,
                 log w' = log w0 ++ l
                 /\ Forall (fun e => exists sql, e = EvQuery h sql) l).
  { induction Hops as [|op ops Hop Hops IH]; intros st w0 Hc Hfl.
    - simpl. repeat split; try assumption.
      exists []. now rewrite app_nil_r.
    - simpl.
      pose proof (injected_step op st w0 h Hop Hc Hfl) as Hs.
      destruct (Client.step T op st w0) as [st1 w1]. simpl in Hs.
      destruct Hs as (Hc1 & Hfl1 & Hn1 & Hl1).
      destruct (IH st1 w1 Hc1 Hfl1) as (Hc2 & Hfl2 & Hn2 & l & Hl & Hall).
      split; [exact Hc2|]. split; [exact Hfl2|].
      split; [congruence|].
      destruct Hl1 as [Hl1|[sql Hl1]]; rewrite Hl, Hl1.
      + now exists l.
      + exists (EvQuery h sql :: l). rewrite <- app_assoc.
        split; [reflexivity|]. constructor; [now exists sql|exact Hall]. }
  apply Hgen; [exact Ho|reflexivity].
Qed.

End Injected.

Lemma X18_injected_handle_only_witness :
  let st' := fst (Client.run good_server
                    [Client.Connect; Client.Query "SELECT 1"]
                    (Client.constructor injected_options) injected_world) in
  Client.client st' = Some 0 /\ Client.connected st' = false.
Proof.
  intros st'.
  destruct (X18_injected_handle_only good_server injected_options 0
              [Client.Connect; Client.Query "SELECT 1"] injected_world
              eq_refl) as (Hc & Hfl & _).
  - repeat constructor; discriminate.
  - now split.
Defined.
